(** * LettuceVisSim: the mechanistic lettuce growth model

    A shallow embedding of [base_lettuce_model.py]: the rate function
    [_model_core], the class [BaseLettuceMechanisticModel] with its
    constructor, its validation, the parameter update, the light
    interception setter, [reset] and the RK4 [step].

    The Python code computes on IEEE doubles through numpy and numba.  The
    embedding is written once over an interface [Arith] of the operations
    the code applies to its numbers, so that every structural statement
    holds for whatever those operations compute.  The interface is
    instantiated with the real numbers ([Arith_R]) where a statement needs
    the order or the algebra of the numbers. *)

From Stdlib Require Import ZArith QArith Reals Qreals Lra Psatz.
From stdpp Require Import base option list strings gmap sorting.

Set Default Proof Using "Type".

(** ** Numbers *)

Declare Scope fl_scope.
Delimit Scope fl_scope with fl.

(** The operations of the source on its floating-point numbers.  [lit] is a
    decimal literal of the source ([0.2]), [of_int] the conversion of a
    Python [int] that meets a float.  [fpow] is [**] with a float exponent,
    [fpowi] is [**] with the integer literal exponent of [t**2].  The three
    laws hold for IEEE arithmetic as well as for the real numbers. *)
Class Arith (F : Type) := {
  lit : Q → F;
  of_int : Z → F;
  fadd : F → F → F;
  fsub : F → F → F;
  fmul : F → F → F;
  fdiv : F → F → F;
  fneg : F → F;
  fpow : F → F → F;
  fpowi : F → Z → F;
  fexp : F → F;
  fle : F → F → bool;
  fadd_comm : ∀ x y, fadd x y = fadd y x;
  fmul_comm : ∀ x y, fmul x y = fmul y x;
  fsub_fneg : ∀ x y, fsub x y = fadd x (fneg y);
}.

Notation "x + y" := (fadd x y) : fl_scope.
Notation "x - y" := (fsub x y) : fl_scope.
Notation "x * y" := (fmul x y) : fl_scope.
Notation "x / y" := (fdiv x y) : fl_scope.
Notation "- x" := (fneg x) : fl_scope.
Notation "x ** y" := (fpow x y) (at level 30, right associativity) : fl_scope.
Notation "x <=? y" := (fle x y) : fl_scope.
Notation "$ z" := (of_int z) (at level 1, format "$ z") : fl_scope.

(** ** Exceptions *)

(** The texts of the [ValueError]s the class raises; the two that print a
    set carry it. *)
Inductive message :=
  | Plant_dry_weight_must_be_positive
  | Plant_density_must_be_positive
  | Missing_required_parameters (missing : gset string)
  | Unknown_parameters (unknown_params : gset string)
  | Light_interception_must_be_between_0_and_1.

Inductive exn :=
  | ValueError (msg : message)
  | KeyError (key : string)
  | IndexError.

Section Model.
Context {F : Type} `{Arith F}.
Local Open Scope fl_scope.

(** ** Arrays of two numbers: the state and the rates *)

Definition vec : Type := F * F.

(** [a + b] on two arrays. *)
Definition vadd (a b : vec) : vec := (a.1 + b.1, a.2 + b.2).
(** [s * a], a scalar on the left. *)
Definition smul (s : F) (a : vec) : vec := (s * a.1, s * a.2).
(** [a * s], a scalar on the right. *)
Definition vmuls (a : vec) (s : F) : vec := (a.1 * s, a.2 * s).
(** [a / s]. *)
Definition vdivs (a : vec) (s : F) : vec := (a.1 / s, a.2 / s).

(** The action [u]: temperature, radiation, CO2 and population density. *)
Record controls := Controls { temp : F; rad : F; co2 : F; pop_density : F }.

(** ** The rate function *)

Definition _beer_lambert (lai k : F) : F := - fexp (- k * lai) + $1.

(** The light interception of lines 40-44, given the scaled structural
    weight [x1]. *)
Definition light_interception (light_interception_method : Z)
    (c_lar c_t c_k external_li x1 : F) : F :=
  if decide (light_interception_method = 0%Z) then
    let lai := c_lar * ($1 - c_t) * x1 in
    _beer_lambert lai c_k
  else external_li.

(** [_model_core x u params_array light_interception_method]; [None] when
    [params_array] is too short to be unpacked. *)
Definition _model_core (x : vec) (u : controls) (params_array : list F)
    (light_interception_method : Z) : option vec :=
  let '(Controls t r co2 pd) := u in
  let x := vmuls x pd in
  c_R ← params_array !! 0%nat; c_Q10_R ← params_array !! 1%nat;
  c_epsilon ← params_array !! 2%nat; c_w ← params_array !! 3%nat;
  g_bnd ← params_array !! 4%nat; g_stm ← params_array !! 5%nat;
  c_car_1 ← params_array !! 6%nat; c_car_2 ← params_array !! 7%nat;
  c_car_3 ← params_array !! 8%nat;
  c_gr_max ← params_array !! 9%nat; c_r ← params_array !! 10%nat;
  c_resp_sht ← params_array !! 11%nat; c_resp_rt ← params_array !! 12%nat;
  c_Q10_gr ← params_array !! 13%nat; c_Q10_resp ← params_array !! 14%nat;
  c_t ← params_array !! 15%nat; c_k ← params_array !! 16%nat;
  c_lar ← params_array !! 17%nat;
  c_a ← params_array !! 18%nat; c_b ← params_array !! 19%nat;
  external_li ← params_array !! 20%nat;
  let R := c_R * c_Q10_R ** ((t - $20) / $10) in
  let lue := c_epsilon * (co2 - R) / (co2 + $2 * R) in
  let g_co2 :=
    $1 / ($1 / g_bnd + $1 / g_stm
          + $1 / (c_car_1 * fpowi t 2 + c_car_2 * t + c_car_3)) in
  let light_interception :=
    light_interception light_interception_method c_lar c_t c_k external_li x.2 in
  let f_photo_max :=
    (lue * r * g_co2 * c_w * (co2 - R)) / (lue * r + g_co2 * c_w * (co2 - R)) in
  let f_photo := f_photo_max * light_interception in
  let rgr := c_gr_max * (x.1 / (c_r * x.2 + x.1)) * c_Q10_gr ** ((t - $20) / $10) in
  let f_resp :=
    (c_resp_sht * ($1 - c_t) * x.2 + c_resp_rt * c_t * x.2)
    * c_Q10_resp ** ((t - $25) / $10) in
  let ki : vec :=
    (c_a * f_photo - rgr * x.2 - f_resp - ($1 - c_b) / c_b * rgr * x.2,
     rgr * x.2) in
  Some (vdivs ki pd).

(** ** The class [BaseLettuceMechanisticModel] *)

(** The attributes of an instance.  [parameters] is the dictionary handed
    to the constructor, [params_array] the flat array derived from it. *)
Record model := Model {
  parameters : gmap string F;
  light_interception_method : Z;
  _external_light_interception : F;
  state0 : F;
  state : vec;
  h : Z;
  plant_density : Z;
  params_array : list F;
}.

Definition set_parameters (d : gmap string F) (m : model) : model :=
  Model d (light_interception_method m) (_external_light_interception m)
        (state0 m) (state m) (h m) (plant_density m) (params_array m).
Definition set_external (v : F) (m : model) : model :=
  Model (parameters m) (light_interception_method m) v
        (state0 m) (state m) (h m) (plant_density m) (params_array m).
Definition set_state (x : vec) (m : model) : model :=
  Model (parameters m) (light_interception_method m)
        (_external_light_interception m)
        (state0 m) x (h m) (plant_density m) (params_array m).
Definition set_params_array (a : list F) (m : model) : model :=
  Model (parameters m) (light_interception_method m)
        (_external_light_interception m)
        (state0 m) (state m) (h m) (plant_density m) a.

(** A method runs on the instance and either returns or raises; in both
    cases it leaves an instance behind, with whatever it had assigned
    before it raised. *)
Definition M (A : Type) : Type := model → (exn + A) * model.

#[export] Instance M_ret : MRet M := λ A a m, (inr a, m).
#[export] Instance M_bind : MBind M := λ A B k c m,
  match c m with
  | (inl e, m') => (inl e, m')
  | (inr a, m') => k a m'
  end.
Definition raise {A} (e : exn) : M A := λ m, (inl e, m).
Definition self : M model := λ m, (inr m, m).
Definition assign (f : model → model) : M () := λ m, (inr (), f m).

(** The keys [_validate_inputs] requires. *)
Definition required_params : gset string :=
  list_to_set
    ["c_a"; "c_b"; "c_gr_max"; "c_r"; "c_resp_sht"; "c_resp_rt";
     "c_Q10_gr"; "c_Q10_resp"; "c_t"; "c_k"; "c_lar"; "c_epsilon";
     "c_w"; "c_R"; "c_Q10_R"; "g_bnd"; "g_stm"; "c_car_1";
     "c_car_2"; "c_car_3"].

Definition _validate_inputs (plant_dw : F) (plant_density : Z)
    (parameters : gmap string F) : exn + () :=
  if plant_dw <=? $0 then
    inl (ValueError Plant_dry_weight_must_be_positive)
  else if bool_decide (plant_density ≤ 0)%Z then
    inl (ValueError Plant_density_must_be_positive)
  else
    let missing := required_params ∖ dom parameters in
    if decide (missing = ∅) then inr ()
    else inl (ValueError (Missing_required_parameters missing)).

(** The order in which [_init_params_array] reads the dictionary. *)
Definition param_order : list string :=
  ["c_R"; "c_Q10_R"; "c_epsilon"; "c_w"; "g_bnd"; "g_stm";
   "c_car_1"; "c_car_2"; "c_car_3"; "c_gr_max"; "c_r";
   "c_resp_sht"; "c_resp_rt"; "c_Q10_gr"; "c_Q10_resp";
   "c_t"; "c_k"; "c_lar"; "c_a"; "c_b"].

(** [[d[k] for k in ks]], raising [KeyError] at the first absent key. *)
Fixpoint lookup_all (d : gmap string F) (ks : list string) : exn + list F :=
  match ks with
  | [] => inr []
  | k :: ks =>
      match d !! k with
      | None => inl (KeyError k)
      | Some v =>
          match lookup_all d ks with
          | inl e => inl e
          | inr vs => inr (v :: vs)
          end
      end
  end.

Definition _init_params_array : M () :=
  m ← self;
  match lookup_all (parameters m) param_order with
  | inl e => raise e
  | inr vs =>
      assign (set_params_array vs);;
      assign (set_params_array (vs ++ [_external_light_interception m]))
  end.

(** The constructor: an exception, or the new instance.  [params_array]
    does not exist before [_init_params_array] has run; it is [[]] there. *)
Definition __init__ (plant_dw : F) (plant_density : Z)
    (parameters : gmap string F) (control_rate : Z)
    (light_interception_method : Z) : exn + model :=
  match _validate_inputs plant_dw plant_density parameters with
  | inl e => inl e
  | inr _ =>
      let state0 := plant_dw in
      let m :=
        Model parameters light_interception_method (lit 0)
              state0 (state0 * lit (2 # 10), state0 * lit (8 # 10))
              (control_rate * 60) plant_density [] in
      match _init_params_array m with
      | (inl e, _) => inl e
      | (inr _, m) => inr m
      end
  end.

Definition set_external_light_interception (value : F) : M () :=
  if negb (($0 <=? value) && (value <=? $1)) then
    raise (ValueError Light_interception_must_be_between_0_and_1)
  else
    assign (set_external value);;
    m ← self;
    match length (params_array m) with
    | O => raise IndexError
    | S n => assign (set_params_array (<[n := value]> (params_array m)))
    end.

(** A call of [_model_core] from a method. *)
Definition call_core (x : vec) (u : controls) (params_array : list F)
    (method_flag : Z) : M vec :=
  match _model_core x u params_array method_flag with
  | Some k => mret k
  | None => raise IndexError
  end.

Definition step (action : controls) : M () :=
  m ← self;
  let method_flag := light_interception_method m in
  k1 ← call_core (state m) action (params_array m) method_flag;
  k2 ← call_core (vadd (state m) (smul ($(h m) / $2) k1)) action
         (params_array m) method_flag;
  k3 ← call_core (vadd (state m) (smul ($(h m) / $2) k2)) action
         (params_array m) method_flag;
  k4 ← call_core (vadd (state m) (smul $(h m) k3)) action
         (params_array m) method_flag;
  assign (set_state
    (vadd (state m)
       (smul ($(h m) / $6)
          (vadd (vadd (vadd k1 (smul $2 k2)) (smul $2 k3)) k4)))).

Definition update_parameters (new_params : gmap string F) : M () :=
  m ← self;
  let unknown_params := dom new_params ∖ dom (parameters m) in
  if decide (unknown_params = ∅) then
    assign (set_parameters (new_params ∪ parameters m));;
    _init_params_array
  else raise (ValueError (Unknown_parameters unknown_params)).

Definition reset : M () :=
  m ← self;
  assign (set_state (state0 m * lit (2 # 10), state0 m * lit (8 # 10))).

(** ** Histories of an instance *)

(** The public calls on an instance. *)
Inductive call :=
  | Call_step (action : controls)
  | Call_set_external_light_interception (value : F)
  | Call_update_parameters (new_params : gmap string F)
  | Call_reset.

Definition run_call (c : call) : M () :=
  match c with
  | Call_step action => step action
  | Call_set_external_light_interception value =>
      set_external_light_interception value
  | Call_update_parameters new_params => update_parameters new_params
  | Call_reset => reset
  end.

(** The instance after a sequence of calls, each of which returned or
    raised. *)
Definition run_calls (cs : list call) (m : model) : model :=
  foldl (λ m c, (run_call c m).2) m cs.

(** The arguments of a constructor call. *)
Record ctor_args := Ctor {
  arg_plant_dw : F;
  arg_plant_density : Z;
  arg_parameters : gmap string F;
  arg_control_rate : Z;
  arg_light_interception_method : Z;
}.

Definition construct (a : ctor_args) : exn + model :=
  __init__ (arg_plant_dw a) (arg_plant_density a) (arg_parameters a)
           (arg_control_rate a) (arg_light_interception_method a).

(** [m] is an instance: the constructor returned it from [a], and the calls
    [cs] were made on it since. *)
Definition instance (a : ctor_args) (cs : list call) (m : model) : Prop :=
  ∃ m0, construct a = inr m0 ∧ m = run_calls cs m0.

(** The override the setter calls of a history leave, from [cur]: the value
    of the last call that was accepted. *)
Definition accepted (value : F) : bool := ($0 <=? value) && (value <=? $1).

Fixpoint override_after (cs : list call) (cur : F) : F :=
  match cs with
  | [] => cur
  | Call_set_external_light_interception value :: cs =>
      override_after cs (if accepted value then value else cur)
  | _ :: cs => override_after cs cur
  end.

(** The flat array is the one [_init_params_array] derives from the
    dictionary and the override as they are now. *)
Definition derived (m : model) : Prop :=
  ∃ vs, lookup_all (parameters m) param_order = inr vs
        ∧ params_array m = vs ++ [_external_light_interception m].

(** What every instance made from [a] satisfies. *)
Record instance_inv (a : ctor_args) (m : model) : Prop := {
  inv_derived : derived m;
  inv_state0 : state0 m = arg_plant_dw a;
  inv_h : h m = (arg_control_rate a * 60)%Z;
  inv_plant_density : plant_density m = arg_plant_density a;
  inv_method :
    light_interception_method m = arg_light_interception_method a;
}.

(** ** The reference of the specification *)

(** The named coefficients, and the override at the tail. *)
Record coefficients := Coefficients {
  c_R : F; c_Q10_R : F; c_epsilon : F; c_w : F; g_bnd : F; g_stm : F;
  c_car_1 : F; c_car_2 : F; c_car_3 : F; c_gr_max : F; c_r : F;
  c_resp_sht : F; c_resp_rt : F; c_Q10_gr : F; c_Q10_resp : F;
  c_t : F; c_k : F; c_lar : F; c_a : F; c_b : F;
  external_light_interception : F;
}.

(** The positional order of the derived coefficient vector. *)
Definition flatten (c : coefficients) : list F :=
  [c_R c; c_Q10_R c; c_epsilon c; c_w c; g_bnd c; g_stm c;
   c_car_1 c; c_car_2 c; c_car_3 c; c_gr_max c; c_r c;
   c_resp_sht c; c_resp_rt c; c_Q10_gr c; c_Q10_resp c;
   c_t c; c_k c; c_lar c; c_a c; c_b c;
   external_light_interception c].

(** The coefficients an instance holds: the dictionary's values under
    their names, and the override. *)
Definition coefficients_of (m : model) : option coefficients :=
  let d := parameters m in
  c_R ← d !! "c_R"; c_Q10_R ← d !! "c_Q10_R";
  c_epsilon ← d !! "c_epsilon"; c_w ← d !! "c_w";
  g_bnd ← d !! "g_bnd"; g_stm ← d !! "g_stm";
  c_car_1 ← d !! "c_car_1"; c_car_2 ← d !! "c_car_2";
  c_car_3 ← d !! "c_car_3";
  c_gr_max ← d !! "c_gr_max"; c_r ← d !! "c_r";
  c_resp_sht ← d !! "c_resp_sht"; c_resp_rt ← d !! "c_resp_rt";
  c_Q10_gr ← d !! "c_Q10_gr"; c_Q10_resp ← d !! "c_Q10_resp";
  c_t ← d !! "c_t"; c_k ← d !! "c_k"; c_lar ← d !! "c_lar";
  c_a ← d !! "c_a"; c_b ← d !! "c_b";
  Some (Coefficients c_R c_Q10_R c_epsilon c_w g_bnd g_stm
          c_car_1 c_car_2 c_car_3 c_gr_max c_r c_resp_sht c_resp_rt
          c_Q10_gr c_Q10_resp c_t c_k c_lar c_a c_b
          (_external_light_interception m)).

Inductive mode := BeerLambert | External.

Definition mode_of_flag (light_interception_method : Z) : mode :=
  if decide (light_interception_method = 0%Z) then BeerLambert else External.

(** Step 4 of the rate function as the specification words it. *)
Definition spec_interception (md : mode) (c : coefficients) (X1 : F) : F :=
  match md with
  | BeerLambert =>
      let lai := c_lar c * ($1 - c_t c) * X1 in
      $1 - fexp (- c_k c * lai)
  | External => external_light_interception c
  end.

(** Steps 1 to 9 of the rate function as the specification words them. *)
Definition spec_rate (md : mode) (c : coefficients) (x : vec) (u : controls)
    : vec :=
  let X0 := x.1 * pop_density u in
  let X1 := x.2 * pop_density u in
  let R := c_R c * c_Q10_R c ** ((temp u - $20) / $10) in
  let lue := c_epsilon c * (co2 u - R) / (co2 u + $2 * R) in
  let g_co2 :=
    $1 / ($1 / g_bnd c + $1 / g_stm c
          + $1 / (c_car_1 c * fpowi (temp u) 2 + c_car_2 c * temp u
                  + c_car_3 c)) in
  let interception := spec_interception md c X1 in
  let f_photo_max :=
    (lue * rad u * g_co2 * c_w c * (co2 u - R))
    / (lue * rad u + g_co2 * c_w c * (co2 u - R)) in
  let f_photo := f_photo_max * interception in
  let rgr :=
    c_gr_max c * (X0 / (c_r c * X1 + X0))
    * c_Q10_gr c ** ((temp u - $20) / $10) in
  let f_resp :=
    (c_resp_sht c * ($1 - c_t c) * X1 + c_resp_rt c * c_t c * X1)
    * c_Q10_resp c ** ((temp u - $25) / $10) in
  let dX0 :=
    c_a c * f_photo - rgr * X1 - f_resp - (($1 - c_b c) / c_b c) * rgr * X1 in
  let dX1 := rgr * X1 in
  (dX0 / pop_density u, dX1 / pop_density u).

(** The integrator of section 4.4, for a rate function [f] and an interval
    [h]. *)
Definition spec_rk4 (f : vec → vec) (h : F) (x : vec) : vec :=
  let k1 := f x in
  let k2 := f (vadd x (smul (h / $2) k1)) in
  let k3 := f (vadd x (smul (h / $2) k2)) in
  let k4 := f (vadd x (smul h k3)) in
  vadd x (smul (h / $6)
            (vadd (vadd (vadd k1 (smul $2 k2)) (smul $2 k3)) k4)).

(** The four states at which one RK4 step evaluates [f]: [x] and the three
    intermediate stage states. *)
Definition rk4_stage_states (f : vec → vec) (h : F) (x : vec) : list vec :=
  let k1 := f x in
  let s2 := vadd x (smul (h / $2) k1) in
  let k2 := f s2 in
  let s3 := vadd x (smul (h / $2) k2) in
  let k3 := f s3 in
  let s4 := vadd x (smul h k3) in
  [x; s2; s3; s4].

(** The total dry weight per plant, [state.sum()]. *)
Definition total (x : vec) : F := x.1 + x.2.

End Model.

Arguments model F : clear implicits.
Arguments controls F : clear implicits.
Arguments coefficients F : clear implicits.
Arguments call F : clear implicits.
Arguments ctor_args F : clear implicits.
Arguments vec F : clear implicits.
Arguments M F : clear implicits.
Arguments lookup_all : simpl never.
Arguments spec_rate : simpl never.
Arguments spec_rk4 : simpl never.

(** ** The real numbers as numbers *)

(** The reading of the operations in exact arithmetic.  [Rpower] is [**]
    on a positive base, which is where the model uses it (the Q10
    coefficients); a division by zero, which gives an infinity or a NaN in
    the source, is [0] here.  The statements over [R] below keep to inputs
    where no such case arises. *)

#[export] Instance Rle_decision : RelDecision Rle := Rle_dec.

#[export, refine] Instance Arith_R : Arith R := {|
  lit := Q2R;
  of_int := IZR;
  fadd := Rplus;
  fsub := Rminus;
  fmul := Rmult;
  fdiv := Rdiv;
  fneg := Ropp;
  fpow := Rpower;
  fpowi := powerRZ;
  fexp := exp;
  fle x y := bool_decide (x <= y)%R;
|}.
Proof.
  - intros x y. apply Rplus_comm.
  - intros x y. apply Rmult_comm.
  - intros x y. reflexivity.
Defined.

(** ** A worked instance over the real numbers *)

(** A parameter set in the range of the published lettuce model, the
    constructor call of [simulation_example.py] on it, and a night-time
    action: 22 degrees, no radiation, 800 ppm, 90 plants. *)
Definition example_coefficients : coefficients R :=
  {| c_R := 7.32e-5; c_Q10_R := 2; c_epsilon := 17e-9; c_w := 1.83e-3;
     g_bnd := 0.007; g_stm := 0.005;
     c_car_1 := -1.32e-5; c_car_2 := 5.94e-4; c_car_3 := -2.64e-3;
     c_gr_max := 5e-6; c_r := 1;
     c_resp_sht := 3.47e-7; c_resp_rt := 1.16e-7;
     c_Q10_gr := 1.6; c_Q10_resp := 2;
     c_t := 0.07; c_k := 0.9; c_lar := 0.075; c_a := 0.68; c_b := 0.8;
     external_light_interception := Q2R 0 |}%R.

Definition example_parameters : gmap string R :=
  list_to_map (zip param_order (take 20 (flatten example_coefficients))).

Definition example_args : ctor_args R :=
  {| arg_plant_dw := 0.04%R; arg_plant_density := 90;
     arg_parameters := example_parameters; arg_control_rate := 5;
     arg_light_interception_method := 0 |}.

Definition example_model : model R :=
  {| parameters := example_parameters;
     light_interception_method := 0;
     _external_light_interception := Q2R 0;
     state0 := 0.04%R;
     state := (0.04 * Q2R (2 # 10), 0.04 * Q2R (8 # 10))%R;
     h := 5 * 60;
     plant_density := 90;
     params_array := flatten example_coefficients |}.

Definition example_dark : controls R :=
  {| temp := 22; rad := 0; co2 := 800; pop_density := 90 |}%R.

(** An update that recalibrates two known parameters. *)
Definition example_update : gmap string R :=
  {[ "c_gr_max" := 4.8e-6%R; "c_k" := 0.85%R ]}.

(** Reading the worked coefficients and action off their records. *)
Ltac ex_cbn :=
  cbn [c_gr_max c_r c_b c_t c_resp_sht c_resp_rt c_Q10_gr c_Q10_resp
       example_coefficients example_dark temp rad pop_density].
Ltac ex_cbn_in H :=
  cbn [c_gr_max c_r c_b c_t c_resp_sht c_resp_rt c_Q10_gr c_Q10_resp
       example_coefficients example_dark temp rad pop_density] in H.

(** ** The rest of the code: the script and the renderer's input *)

(** What follows embeds the code around the model: the main loop of
    [simulation_example.py], which drives the model and decides when a
    frame is rendered, and the functions of [visual_function.py], which
    turn a dry weight and a plant count into the data of a frame. *)

(** The further operations of that code on its numbers: [np.sqrt], [<],
    the test of a divisor for zero that numba makes before a division,
    and [int(x)]. *)
Class ArithMore (F : Type) := {
  fsqrt : F → F;
  flt : F → F → bool;
  fis_zero : F → bool;
  fint : F → Z;
}.

Notation "x <? y" := (flt x y) : fl_scope.

(** [np.linspace], of which the code uses that it returns [num] samples. *)
Class Numpy (F : Type) := {
  linspace : F → F → Z → list F;
  linspace_length : ∀ start stop num,
    length (linspace start stop num) = Z.to_nat num;
}.

(** [np.random.uniform] on the state of the generator, of which the code
    uses that it returns [size] samples. *)
Class NumpyRandom (F : Type) := {
  generator : Type;
  uniform : F → F → nat → generator → list F * generator;
  uniform_length : ∀ low high size g,
    length (uniform low high size g).1 = size;
}.

(** The exception of a division by zero in compiled code. *)
Inductive grid_exn := ZeroDivisionError.

Section Calls.
Context {F : Type} `{Arith F}.

Definition is_step_or_reset (c : call F) : bool :=
  match c with
  | Call_step _ | Call_reset => true
  | _ => false
  end.

End Calls.

Section Script.
Context {F : Type} `{Arith F} `{ArithMore F}.
Local Open Scope fl_scope.

(** A row of [strategy_array]: its first four columns, which are the
    action, and column 6, the hour. *)
Record row := Row { row_action : controls F; row_hour_order : F }.

(** A call of [render_calculation] followed by [process_step]: the
    arguments the script passes.  The renderer is taken to answer. *)
Record render_call := Render {
  render_dw : F;
  render_plant_density : Z;
  render_timestep : Z;
  render_day : Z;
}.

(** The [for] loop of the script, from [previous_hour_order]; it returns
    the frames it has rendered, in order. *)
Fixpoint main_loop (strategy_array : list row) (previous_hour_order : Z)
    : M F (list render_call) :=
  match strategy_array with
  | [] => mret []
  | r :: strategy_array =>
      let actions := row_action r in
      let hour_order := fint (row_hour_order r) in
      step actions;;
      if bool_decide (hour_order `mod` 24 = 0)%Z
         && negb (bool_decide (hour_order = previous_hour_order)) then
        m ← self;
        let current_day := (hour_order `div` 24)%Z in
        let data :=
          Render (total (state m)) (fint (pop_density actions))
                 hour_order current_day in
        frames ← main_loop strategy_array hour_order;
        mret (data :: frames)
      else main_loop strategy_array previous_hour_order
  end.

(** The body of [if __name__ == "__main__"]: the first frame, then the
    loop. *)
Definition main (strategy_array : list row) : M F (list render_call) :=
  match strategy_array with
  | [] => raise IndexError
  | r0 :: _ =>
      let previous_hour_order := fint (row_hour_order r0) in
      m ← self;
      let data :=
        Render (total (state m)) (fint (pop_density (row_action r0)))
               previous_hour_order 0 in
      frames ← main_loop strategy_array previous_hour_order;
      mret (data :: frames)
  end.

(** The script on the three files it loads: the construction, the update
    with the optimal parameters, and [main]. *)
Definition simulation_example (default_params optimal_params : gmap string F)
    (strategy_array : list row) : exn + list render_call * model F :=
  match __init__ (lit 0.04) 90 default_params 5 0 with
  | inl e => inl e
  | inr m =>
      match update_parameters optimal_params m with
      | (inl e, _) => inl e
      | (inr _, m) =>
          match main strategy_array m with
          | (inl e, _) => inl e
          | (inr frames, m) => inr (frames, m)
          end
      end
  end.

(** The [step] calls of a run, and its hours. *)
Definition steps_of (strategy_array : list row) : list (call F) :=
  map (λ r, Call_step (row_action r)) strategy_array.

Definition hour_orders (strategy_array : list row) : list Z :=
  map (λ r, fint (row_hour_order r)) strategy_array.

(** The frame [f] was rendered at some row [i]: it carries the hour and
    the density of that row, and the dry weight after the steps of the
    rows up to [i]. *)
Definition frame_of_row (strategy_array : list row) (m : model F)
    (f : render_call) : Prop :=
  ∃ i r, strategy_array !! i = Some r
    ∧ render_timestep f = fint (row_hour_order r)
    ∧ render_plant_density f = fint (pop_density (row_action r))
    ∧ render_dw f
      = total (state (run_calls (steps_of (take (S i) strategy_array)) m)).

End Script.

Arguments row F : clear implicits.
Arguments render_call F : clear implicits.

Section Visual.
Context {F : Type} `{Arith F} `{ArithMore F} `{Numpy F} `{NumpyRandom F}.
Local Open Scope fl_scope.

Definition PARAMS_SMALL : list F :=
  [lit 7.985305504553652; lit 291.73135988978663;
   lit (-707.7401261511758); lit 772.4044195923515].
Definition PARAMS_LARGE : list F :=
  [lit 30.9961439725485; lit 76.16800558950729;
   lit (-6.5045717125301445); lit 0.26365904070466195].

Definition _3_degree_polynomial (x : F) (params : list F) : option F :=
  p0 ← params !! 0%nat; p1 ← params !! 1%nat;
  p2 ← params !! 2%nat; p3 ← params !! 3%nat;
  Some (p0 + x * (p1 + x * (p2 + x * p3))).

Definition _calculate_scale (dw : F) : option F :=
  let threshold := lit 0.3 in
  potential_coverage ←
    (if dw <? threshold then _3_degree_polynomial dw PARAMS_SMALL
     else _3_degree_polynomial dw PARAMS_LARGE);
  let radiu_based_scale := fsqrt potential_coverage in
  Some radiu_based_scale.

(** The [while] loop of [_coordinate_calculation_vectorized]; [None] when
    [fuel] iterations do not end it. *)
Fixpoint grid_loop (fuel : nat) (target_points : Z) (ratio : F)
    (n_cols n_rows : Z) : option (grid_exn + Z * Z) :=
  if bool_decide (n_cols * n_rows < target_points)%Z then
    match fuel with
    | O => None
    | S fuel =>
        if decide (n_rows = 0%Z) then Some (inl ZeroDivisionError)
        else if $n_cols / $n_rows <? ratio then
          grid_loop fuel target_points ratio (n_cols + 1) n_rows
        else
          grid_loop fuel target_points ratio n_cols (n_rows + 1)
    end
  else Some (inr (n_cols, n_rows)).

(** The numbers of columns and rows, lines 45 to 60. *)
Definition grid_dimensions (fuel : nat) (plant_density : Z) (L W : F)
    : option (grid_exn + Z * Z) :=
  let target_points := fint ($plant_density * lit 1.2) in
  if fis_zero W then Some (inl ZeroDivisionError) else
  let ratio := L / W in
  let n_cols := fint (fsqrt ($target_points * ratio)) in
  if fis_zero ratio then Some (inl ZeroDivisionError) else
  let n_rows := fint (fsqrt ($target_points / ratio)) in
  grid_loop fuel target_points ratio n_cols n_rows.

(** The two arrays are filled row by row: every row holds [x_values], and
    row [i] holds [n_cols] times the [i]-th of [z_values]. *)
Definition _coordinate_calculation_vectorized (fuel : nat)
    (plant_density : Z) (L W : F)
    : option (grid_exn + list F * list F) :=
  match grid_dimensions fuel plant_density L W with
  | None => None
  | Some (inl e) => Some (inl e)
  | Some (inr (n_cols, n_rows)) =>
      let x_values := linspace (- L / $2) (L / $2) n_cols in
      let z_values := linspace (- W / $2) (W / $2) n_rows in
      let x_positions := concat (map (λ z, x_values) z_values) in
      let z_positions :=
        concat (map (λ z, replicate (Z.to_nat n_cols) z) z_values) in
      Some (inr (x_positions, z_positions))
  end.

(** An entry of ["lettuces"], and the dictionary [render_calculation]
    returns. *)
Record lettuce := Lettuce {
  lettuce_id : nat;
  position_x : F;
  position_y : Z;
  position_z : F;
  rotation : F;
  scale : F;
}.

Record render_data := RenderData {
  lettuces : list lettuce;
  data_step : Z;
  data_day : Z;
}.

(** [VisualFunction.render_calculation] of an instance with the panel
    size [(self_L, self_W)], on the state [g] of the random generator. *)
Definition render_calculation (self_L self_W : F) (fuel : nat)
    (dw : F) (plant_density : Z) (timestep day : Z) (g : generator)
    : option (grid_exn + render_data * generator) :=
  radiu_based_scale ← _calculate_scale dw;
  let scale := radiu_based_scale / $6 in
  match _coordinate_calculation_vectorized fuel plant_density self_L self_W
  with
  | None => None
  | Some (inl e) => Some (inl e)
  | Some (inr (x_positions, z_positions)) =>
      let total_plant_number := length x_positions in
      let '(random_rotation, g) :=
        uniform (- lit 40) (lit 40) total_plant_number g in
      let '(random_scale, g) :=
        uniform (lit 0.85) (lit 1.15) total_plant_number g in
      let lettuces :=
        imap (λ i '(x, z, rot, rs), Lettuce i x 0 z rot (scale * rs))
          (zip (zip (zip x_positions z_positions) random_rotation)
               random_scale) in
      Some (inr (RenderData lettuces timestep day, g))
  end.

End Visual.

Arguments lettuce F : clear implicits.
Arguments render_data F : clear implicits.

(** ** The further operations over the real numbers *)

#[export] Instance Rlt_decision : RelDecision Rlt := Rlt_dec.
#[export] Instance Req_decision : EqDecision R := Req_dec_T.

(** [int(x)] truncates toward zero. *)
Definition R_int (x : R) : Z :=
  if decide (0 <= x)%R then Int_part x else (- Int_part (- x))%Z.

#[export] Instance ArithMore_R : ArithMore R := {|
  fsqrt := sqrt;
  flt x y := bool_decide (x < y)%R;
  fis_zero x := bool_decide (x = 0%R);
  fint := R_int;
|}.

(** [num] evenly spaced samples from [start] to [stop]. *)
Definition linspace_R (start stop : R) (num : Z) : list R :=
  let div := (num - 1)%Z in
  if decide (0 < div)%Z then
    let step := ((stop - start) / IZR div)%R in
    map (λ i : nat, (start + INR i * step)%R) (seq 0 (Z.to_nat num))
  else replicate (Z.to_nat num) start.

#[export, refine] Instance Numpy_R : Numpy R := {| linspace := linspace_R |}.
Proof.
  intros a b n. unfold linspace_R. case_decide.
  - by rewrite length_map, length_seq.
  - by rewrite length_replicate.
Defined.

(** A generator that draws the lower bound every time: one admissible
    sequence of draws. *)
#[export, refine] Instance NumpyRandom_low : NumpyRandom R := {|
  generator := unit;
  uniform low high size g := (replicate size low, g);
|}.
Proof. intros low high size g. apply length_replicate. Defined.

(** The polynomial [_calculate_scale] takes the root of. *)
Definition coverage_R (dw : R) : R :=
  (if decide (dw < 0.3) then
     7.985305504553652
     + dw * (291.73135988978663
             + dw * (-707.7401261511758 + dw * 772.4044195923515))
   else
     30.9961439725485
     + dw * (76.16800558950729
             + dw * (-6.5045717125301445 + dw * 0.26365904070466195)))%R.

(** ** Further worked inputs *)

(** A second update, a dictionary with a key the model does not read, the
    instance built from it, and an update that switches growth and
    respiration off. *)
Definition example_update_2 : gmap string R :=
  {[ "c_k" := 0.9%R; "c_lar" := 0.08%R ]}.

Definition example_tagged_parameters : gmap string R :=
  <[ "cultivar" := 1%R ]> example_parameters.

Definition example_tagged_args : ctor_args R :=
  {| arg_plant_dw := 0.04%R; arg_plant_density := 90;
     arg_parameters := example_tagged_parameters; arg_control_rate := 5;
     arg_light_interception_method := 0 |}.

Definition example_tagged_model : model R :=
  set_parameters example_tagged_parameters example_model.

Definition example_tag_update : gmap string R := {[ "cultivar" := 2%R ]}.

Definition example_rest_update : gmap string R :=
  {[ "c_gr_max" := 0%R; "c_resp_sht" := 0%R; "c_resp_rt" := 0%R ]}.

Definition example_rest_coefficients : coefficients R :=
  {| c_R := 7.32e-5; c_Q10_R := 2; c_epsilon := 17e-9; c_w := 1.83e-3;
     g_bnd := 0.007; g_stm := 0.005;
     c_car_1 := -1.32e-5; c_car_2 := 5.94e-4; c_car_3 := -2.64e-3;
     c_gr_max := 0; c_r := 1;
     c_resp_sht := 0; c_resp_rt := 0;
     c_Q10_gr := 1.6; c_Q10_resp := 2;
     c_t := 0.07; c_k := 0.9; c_lar := 0.075; c_a := 0.68; c_b := 0.8;
     external_light_interception := Q2R 0 |}%R.

Definition example_rest_model : model R :=
  set_params_array (flatten example_rest_coefficients)
    (set_parameters (example_rest_update ∪ example_parameters) example_model).

(** Two rows of a strategy, at the hours 0 and 24. *)
Definition example_rows : list (row R) :=
  [Row example_dark 0%R; Row example_dark 24%R].

(** * Properties *)

Section Properties.
Context {F : Type} `{Arith F}.
Local Open Scope fl_scope.

(** ** The dictionary and the derived array *)

Lemma required_params_order :
  required_params = list_to_set param_order.
Proof. vm_compute. reflexivity. Qed.

Lemma size_required_params : size required_params = 20%nat.
Proof. vm_compute. reflexivity. Qed.

Lemma lookup_all_nil (d : gmap string F) : lookup_all d [] = inr [].
Proof. reflexivity. Qed.

Lemma lookup_all_cons (d : gmap string F) k ks :
  lookup_all d (k :: ks)
  = match d !! k with
    | None => inl (KeyError k)
    | Some v =>
        match lookup_all d ks with
        | inl e => inl e
        | inr vs => inr (v :: vs)
        end
    end.
Proof. reflexivity. Qed.

Lemma lookup_all_inr (d : gmap string F) ks vs :
  lookup_all d ks = inr vs ↔ Forall2 (λ k v, d !! k = Some v) ks vs.
Proof.
  revert vs. induction ks as [|k ks IH]; intros vs;
    [rewrite lookup_all_nil|rewrite lookup_all_cons].
  - split.
    + intros [= <-]. constructor.
    + intros Hvs. by inversion Hvs.
  - destruct (d !! k) as [v|] eqn:Hk.
    + destruct (lookup_all d ks) as [e|ws] eqn:Hks.
      * split; [done|]. intros Hvs. inversion Hvs as [|? ? ? ws' _ Hws]; subst.
        apply IH in Hws. done.
      * split.
        -- intros [= <-]. constructor; [done|]. by apply IH.
        -- intros Hvs. inversion Hvs as [|? v' ? ws' Hv Hws]; subst.
           apply IH in Hws. congruence.
    + split; [done|]. intros Hvs. inversion Hvs; congruence.
Qed.

Lemma lookup_all_inl (d : gmap string F) ks e :
  lookup_all d ks = inl e → ∃ k, k ∈ ks ∧ d !! k = None ∧ e = KeyError k.
Proof.
  induction ks as [|k ks IH];
    [rewrite lookup_all_nil|rewrite lookup_all_cons]; [done|].
  destruct (d !! k) as [v|] eqn:Hk.
  - destruct (lookup_all d ks) as [e'|ws]; [|done].
    intros [= <-]. destruct IH as (k' & ? & ? & ?); [done|].
    exists k'. split; [by right|done].
  - intros [= <-]. exists k. split; [by left|done].
Qed.

Lemma lookup_all_total (d : gmap string F) ks :
  (∀ k, k ∈ ks → k ∈ dom d) → ∃ vs, lookup_all d ks = inr vs.
Proof.
  intros Hks. destruct (lookup_all d ks) as [e|vs] eqn:Hl; [|by eexists].
  apply lookup_all_inl in Hl as (k & Hin & Hnone & _).
  apply Hks, elem_of_dom in Hin as [v Hv]. congruence.
Qed.

Lemma lookup_all_length (d : gmap string F) ks vs :
  lookup_all d ks = inr vs → length vs = length ks.
Proof. rewrite lookup_all_inr. intros Hvs. symmetry. by eapply Forall2_length. Qed.

Lemma missing_empty_iff (d : gmap string F) :
  required_params ∖ dom d = ∅ ↔ ∀ k, k ∈ param_order → k ∈ dom d.
Proof.
  rewrite required_params_order. split.
  - intros He k Hk. destruct (decide (k ∈ dom d)) as [|Hn]; [done|].
    assert (k ∈ (list_to_set param_order : gset string) ∖ dom d) as Hin.
    { apply elem_of_difference. split; [by apply elem_of_list_to_set|done]. }
    rewrite He in Hin. by apply not_elem_of_empty in Hin.
  - intros Hall. apply set_eq. intros k. split; [|by intros ?%not_elem_of_empty].
    intros [Hk Hn]%elem_of_difference. apply elem_of_list_to_set in Hk.
    destruct Hn. by apply Hall.
Qed.

(** ** The rate function *)

Lemma flatten_length (c : coefficients F) : length (flatten c) = 21%nat.
Proof. reflexivity. Qed.

Lemma flatten_surj (params_array : list F) :
  length params_array = 21%nat → ∃ c, params_array = flatten c.
Proof.
  intros Hlen.
  do 21 (destruct params_array as [|? params_array]; [done|]).
  destruct params_array; [|done].
  by eexists (Coefficients _ _ _ _ _ _ _ _ _ _ _ _ _ _ _ _ _ _ _ _ _).
Qed.

Lemma beer_lambert_spec (lai k : F) :
  _beer_lambert lai k = $1 - fexp (- k * lai).
Proof. unfold _beer_lambert. by rewrite fsub_fneg, fadd_comm. Qed.

Lemma light_interception_spec meth (c : coefficients F) (X1 : F) :
  light_interception meth (c_lar c) (c_t c) (c_k c)
    (external_light_interception c) X1
  = spec_interception (mode_of_flag meth) c X1.
Proof.
  unfold light_interception, spec_interception, mode_of_flag.
  case_decide; [apply beer_lambert_spec|done].
Qed.

Lemma model_core_flatten (x : vec F) (u : controls F) (c : coefficients F) meth :
  _model_core x u (flatten c) meth = Some (spec_rate (mode_of_flag meth) c x u).
Proof.
  destruct u as [t r co2 pd], x as [x0 x1].
  unfold _model_core, spec_rate, flatten; simpl.
  by rewrite light_interception_spec.
Qed.


(** ** The derived array of an instance *)

Lemma derived_flatten (m : model F) :
  derived m ↔ ∃ c, coefficients_of m = Some c ∧ params_array m = flatten c.
Proof.
  unfold derived, coefficients_of, param_order, lookup_all. simpl. split.
  - intros (vs & Hvs & ->).
    repeat match type of Hvs with
    | context [parameters m !! ?k] =>
        destruct (parameters m !! k); simpl in *; [|done]
    end.
    injection Hvs as <-. by eexists.
  - intros (c & Hc & ->).
    repeat match type of Hc with
    | context [parameters m !! ?k] =>
        destruct (parameters m !! k); simpl in *; [|done]
    end.
    injection Hc as <-. by eexists.
Qed.

Lemma derived_length (m : model F) :
  derived m → length (params_array m) = 21%nat.
Proof. intros (c & _ & ->)%derived_flatten. reflexivity. Qed.

Lemma init_params_array_inr (m : model F) vs :
  lookup_all (parameters m) param_order = inr vs →
  _init_params_array m
  = (inr (), set_params_array (vs ++ [_external_light_interception m]) m).
Proof.
  intros Hvs. unfold _init_params_array, mbind, M_bind, self. simpl.
  by rewrite Hvs.
Qed.

Lemma init_params_array_inl (m : model F) e :
  lookup_all (parameters m) param_order = inl e →
  _init_params_array m = (inl e, m).
Proof.
  intros Hvs. unfold _init_params_array, mbind, M_bind, self. simpl.
  by rewrite Hvs.
Qed.

Lemma init_params_array_derived (m : model F) r m' :
  _init_params_array m = (r, m') →
  match r with
  | inr _ => derived m' ∧ ∃ a, m' = set_params_array a m
  | inl _ => m' = m
  end.
Proof.
  destruct (lookup_all (parameters m) param_order) as [e|vs] eqn:Hvs.
  - rewrite (init_params_array_inl _ _ Hvs). by intros [= <- <-].
  - rewrite (init_params_array_inr _ _ Hvs). intros [= <- <-].
    split; [|by eexists]. by exists vs.
Qed.

(** ** Construction *)

(** The instance the constructor makes from valid arguments. *)
Lemma construct_inr (a : ctor_args F) :
  (arg_plant_dw a <=? $0) = false →
  (0 < arg_plant_density a)%Z →
  required_params ∖ dom (arg_parameters a) = ∅ →
  ∃ vs, lookup_all (arg_parameters a) param_order = inr vs ∧
    construct a
    = inr (Model (arg_parameters a) (arg_light_interception_method a) (lit 0)
             (arg_plant_dw a)
             (arg_plant_dw a * lit (2 # 10), arg_plant_dw a * lit (8 # 10))
             (arg_control_rate a * 60) (arg_plant_density a)
             (vs ++ [lit 0])).
Proof.
  intros Hdw Hpd Hmiss.
  destruct (lookup_all_total (arg_parameters a) param_order) as [vs Hvs].
  { by apply missing_empty_iff. }
  exists vs. split; [done|].
  unfold construct, __init__, _validate_inputs.
  rewrite Hdw, bool_decide_false by lia. rewrite decide_True by done.
  erewrite init_params_array_inr by exact Hvs. reflexivity.
Qed.

Lemma construct_inl (a : ctor_args F) e :
  construct a = inl e →
  e = ValueError Plant_dry_weight_must_be_positive
      ∧ (arg_plant_dw a <=? $0) = true
  ∨ e = ValueError Plant_density_must_be_positive
      ∧ (arg_plant_dw a <=? $0) = false ∧ (arg_plant_density a ≤ 0)%Z
  ∨ e = ValueError (Missing_required_parameters
                      (required_params ∖ dom (arg_parameters a)))
      ∧ (arg_plant_dw a <=? $0) = false ∧ (0 < arg_plant_density a)%Z
      ∧ required_params ∖ dom (arg_parameters a) ≠ ∅.
Proof.
  destruct (arg_plant_dw a <=? $0) eqn:Hdw.
  { unfold construct, __init__, _validate_inputs. rewrite Hdw.
    intros [= <-]. by left. }
  destruct (decide (arg_plant_density a ≤ 0)%Z) as [Hpd|Hpd].
  { unfold construct, __init__, _validate_inputs.
    rewrite Hdw, bool_decide_true by done. intros [= <-]. right; left.
    by repeat split. }
  destruct (decide (required_params ∖ dom (arg_parameters a) = ∅))
    as [Hmiss|Hmiss].
  { destruct (construct_inr a) as (vs & _ & ->); [done|lia|done|done]. }
  unfold construct, __init__, _validate_inputs.
  rewrite Hdw, bool_decide_false, decide_False by done.
  intros [= <-]. right; right. repeat split; (done || lia).
Qed.

(** C3: the constructor fails exactly when the initial dry weight is [<= 0],
    or the population density is [<= 0], or one of the 20 required keys is
    absent from the parameter mapping.  Every failure is a [ValueError]; when
    the two numbers are valid and keys are missing, its message carries the
    set of the missing keys, which are the required keys absent from the
    mapping.  A failing construction yields no instance. *)
Theorem C3_construction_validation (a : ctor_args F) :
  ((∃ e, construct a = inl e) ↔
     (arg_plant_dw a <=? $0) = true
     ∨ (arg_plant_density a ≤ 0)%Z
     ∨ ∃ k, k ∈ required_params ∧ arg_parameters a !! k = None)
  ∧ size required_params = 20%nat
  ∧ (∀ e, construct a = inl e → ∃ msg, e = ValueError msg)
  ∧ ((arg_plant_dw a <=? $0) = false → (0 < arg_plant_density a)%Z →
     (∃ k, k ∈ required_params ∧ arg_parameters a !! k = None) →
     ∃ missing,
       construct a = inl (ValueError (Missing_required_parameters missing))
       ∧ ∀ k, k ∈ missing ↔ k ∈ required_params ∧ arg_parameters a !! k = None)
  ∧ ((∃ e, construct a = inl e) → ¬ ∃ m, construct a = inr m).
Proof.
  assert (Hne : required_params ∖ dom (arg_parameters a) ≠ ∅ ↔
                ∃ k, k ∈ required_params ∧ arg_parameters a !! k = None).
  { split.
    - intros Hmiss. apply set_choose_L in Hmiss as [k Hk].
      apply elem_of_difference in Hk as [Hk Hn]. exists k. split; [done|].
      by apply not_elem_of_dom.
    - intros (k & Hk & Hn) He.
      assert (k ∈ required_params ∖ dom (arg_parameters a)) as Hin.
      { apply elem_of_difference. split; [done|]. by apply not_elem_of_dom. }
      rewrite He in Hin. by apply not_elem_of_empty in Hin. }
  split; [|split; [|split; [|split]]].
  - split.
    + intros [e He]. apply construct_inl in He as [(_ & ?)|[(_ & _ & ?)|(_ & _ & _ & ?)]].
      * by left.
      * right; by left.
      * right; right. by apply Hne.
    + intros Hbad. destruct (construct a) as [e|m] eqn:Hc; [by eexists|].
      exfalso.
      destruct (arg_plant_dw a <=? $0) eqn:Hdw.
      { unfold construct, __init__, _validate_inputs in Hc. by rewrite Hdw in Hc. }
      destruct (decide (arg_plant_density a ≤ 0)%Z) as [Hpd|Hpd].
      { unfold construct, __init__, _validate_inputs in Hc.
        by rewrite Hdw, bool_decide_true in Hc by done. }
      destruct Hbad as [?|[?|Hk]]; [done|done|].
      apply Hne in Hk.
      unfold construct, __init__, _validate_inputs in Hc.
      by rewrite Hdw, bool_decide_false, decide_False in Hc by done.
  - apply size_required_params.
  - intros e He.
    apply construct_inl in He as [(-> & _)|[(-> & _)|(-> & _)]]; by eexists.
  - intros Hdw Hpd Hk. apply Hne in Hk.
    exists (required_params ∖ dom (arg_parameters a)). split.
    + unfold construct, __init__, _validate_inputs.
      by rewrite Hdw, bool_decide_false, decide_False by (done || lia).
    + intros k. rewrite elem_of_difference, not_elem_of_dom. done.
  - intros [e He] [m Hm]. congruence.
Qed.

(** ** The methods on an instance *)

Lemma set_external_rejected (m : model F) value :
  accepted value = false →
  set_external_light_interception value m
  = (inl (ValueError Light_interception_must_be_between_0_and_1), m).
Proof.
  unfold accepted, set_external_light_interception. by intros ->.
Qed.

Lemma set_external_accepted (m : model F) value vs old :
  accepted value = true →
  length vs = 20%nat →
  params_array m = vs ++ [old] →
  set_external_light_interception value m
  = (inr (), set_params_array (vs ++ [value]) (set_external value m)).
Proof.
  unfold accepted, set_external_light_interception. intros -> Hlen Hpa.
  unfold mbind, M_bind, assign, self. simpl.
  rewrite Hpa, length_app, Hlen. simpl.
  rewrite insert_app_r_alt by lia. rewrite Hlen. reflexivity.
Qed.

Lemma update_parameters_unknown (m : model F) new_params :
  dom new_params ∖ dom (parameters m) ≠ ∅ →
  update_parameters new_params m
  = (inl (ValueError
            (Unknown_parameters (dom new_params ∖ dom (parameters m)))), m).
Proof.
  intros Hunk. unfold update_parameters, mbind, M_bind, self. simpl.
  by rewrite decide_False.
Qed.

Lemma update_parameters_known (m : model F) new_params :
  dom new_params ∖ dom (parameters m) = ∅ →
  update_parameters new_params m
  = _init_params_array (set_parameters (new_params ∪ parameters m) m).
Proof.
  intros Hunk. unfold update_parameters, mbind, M_bind, self, assign. simpl.
  by rewrite decide_True.
Qed.

Lemma known_keys_dom (d new_params : gmap string F) :
  dom new_params ∖ dom d = ∅ ↔ ∀ k, k ∈ dom new_params → k ∈ dom d.
Proof.
  split.
  - intros He k Hk. destruct (decide (k ∈ dom d)) as [|Hn]; [done|].
    assert (k ∈ dom new_params ∖ dom d) as Hin by by apply elem_of_difference.
    rewrite He in Hin. by apply not_elem_of_empty in Hin.
  - intros Hall. apply set_eq. intros k. split; [|by intros ?%not_elem_of_empty].
    intros [Hk Hn]%elem_of_difference. destruct Hn. by apply Hall.
Qed.

Lemma derived_keys (m : model F) k :
  derived m → k ∈ param_order → k ∈ dom (parameters m).
Proof.
  intros (vs & Hvs & _) Hk. apply lookup_all_inr in Hvs.
  apply list_elem_of_lookup in Hk as [i Hi].
  destruct (Forall2_lookup_l _ _ _ _ _ Hvs Hi) as (v & _ & Hv).
  apply elem_of_dom. by eexists.
Qed.

Lemma update_parameters_inr (m : model F) new_params :
  derived m →
  dom new_params ∖ dom (parameters m) = ∅ →
  ∃ vs, lookup_all (new_params ∪ parameters m) param_order = inr vs ∧
    update_parameters new_params m
    = (inr (), set_params_array (vs ++ [_external_light_interception m])
                 (set_parameters (new_params ∪ parameters m) m)).
Proof.
  intros Hd Hunk.
  destruct (lookup_all_total (new_params ∪ parameters m) param_order)
    as [vs Hvs].
  { intros k Hk. rewrite dom_union_L. apply elem_of_union_r.
    by apply derived_keys. }
  exists vs. split; [done|].
  rewrite update_parameters_known by done.
  by rewrite (init_params_array_inr _ vs).
Qed.

Lemma call_core_flatten (x : vec F) u (c : coefficients F) meth (m : model F) :
  call_core x u (flatten c) meth m
  = (inr (spec_rate (mode_of_flag meth) c x u), m).
Proof. unfold call_core. by rewrite model_core_flatten. Qed.

Lemma step_flatten (m : model F) (c : coefficients F) u :
  params_array m = flatten c →
  step u m
  = (inr (),
     set_state
       (spec_rk4
          (λ x, spec_rate (mode_of_flag (light_interception_method m)) c x u)
          $(h m) (state m)) m).
Proof.
  intros Hpa. unfold step, mbind, M_bind, self. simpl. rewrite Hpa.
  rewrite !call_core_flatten. reflexivity.
Qed.

Lemma reset_eq (m : model F) :
  reset m
  = (inr (), set_state (state0 m * lit (2 # 10), state0 m * lit (8 # 10)) m).
Proof. reflexivity. Qed.

(** ** What holds of every instance *)

Lemma param_order_length : length param_order = 20%nat.
Proof. reflexivity. Qed.

Lemma construct_instance_inv (a : ctor_args F) m0 :
  construct a = inr m0 →
  instance_inv a m0
  ∧ _external_light_interception m0 = lit 0
  ∧ state m0 = (arg_plant_dw a * lit (2 # 10), arg_plant_dw a * lit (8 # 10))
  ∧ parameters m0 = arg_parameters a.
Proof.
  intros Hc.
  destruct (arg_plant_dw a <=? $0) eqn:Hdw.
  { unfold construct, __init__, _validate_inputs in Hc. by rewrite Hdw in Hc. }
  destruct (decide (arg_plant_density a ≤ 0)%Z) as [Hpd|Hpd].
  { unfold construct, __init__, _validate_inputs in Hc.
    by rewrite Hdw, bool_decide_true in Hc by done. }
  destruct (decide (required_params ∖ dom (arg_parameters a) = ∅))
    as [Hmiss|Hmiss].
  2:{ unfold construct, __init__, _validate_inputs in Hc.
      by rewrite Hdw, bool_decide_false, decide_False in Hc by done. }
  destruct (construct_inr a) as (vs & Hvs & Heq); [done|lia|done|].
  rewrite Heq in Hc. injection Hc as <-.
  repeat split; simpl; try done. by exists vs.
Qed.

Lemma run_call_instance_inv (a : ctor_args F) c m :
  instance_inv a m →
  instance_inv a (run_call c m).2
  ∧ _external_light_interception (run_call c m).2
    = override_after [c] (_external_light_interception m).
Proof.
  intros [Hd H0 Hh Hpd Hm]. destruct c as [u|value|new_params|]; simpl.
  - apply derived_flatten in Hd as Hc. destruct Hc as (c & Hc & Hpa).
    rewrite (step_flatten _ c) by done. simpl. by split.
  - destruct (accepted value) eqn:Hacc.
    + destruct Hd as (vs & Hvs & Hpa).
      rewrite (set_external_accepted _ _ vs (_external_light_interception m));
        [|done|by apply lookup_all_length in Hvs|done].
      simpl. split; [|done]. split; simpl; try done. by exists vs.
    + rewrite set_external_rejected by done. by split.
  - destruct (decide (dom new_params ∖ dom (parameters m) = ∅)) as [Hk|Hk].
    + destruct (update_parameters_inr m new_params) as (vs & Hvs & ->);
        [done..|].
      simpl. split; [|done]. split; simpl; try done. by exists vs.
    + rewrite update_parameters_unknown by done. by split.
  - by split.
Qed.

Lemma override_after_app (cs1 cs2 : list (call F)) cur :
  override_after (cs1 ++ cs2) cur
  = override_after cs2 (override_after cs1 cur).
Proof.
  revert cur. induction cs1 as [|c cs1 IH]; intros cur; [done|].
  destruct c; simpl; apply IH.
Qed.

Lemma run_calls_instance_inv (a : ctor_args F) cs m :
  instance_inv a m →
  instance_inv a (run_calls cs m)
  ∧ _external_light_interception (run_calls cs m)
    = override_after cs (_external_light_interception m).
Proof.
  revert m. induction cs as [|c cs IH]; intros m Hinv; [done|].
  destruct (run_call_instance_inv a c m Hinv) as [Hinv' Hext].
  destruct (IH _ Hinv') as [Hinv'' Hext'].
  split; [done|]. simpl in *. rewrite Hext', Hext.
  by destruct c.
Qed.

Lemma instance_instance_inv (a : ctor_args F) cs m :
  instance a cs m →
  instance_inv a m
  ∧ _external_light_interception m = override_after cs (lit 0).
Proof.
  intros (m0 & Hc & ->).
  apply construct_instance_inv in Hc as (Hinv & Hext & _).
  rewrite <-Hext. by apply run_calls_instance_inv.
Qed.

Lemma instance_snoc (a : ctor_args F) cs c m :
  instance a cs m → instance a (cs ++ [c]) (run_call c m).2.
Proof.
  intros (m0 & Hc & ->). exists m0. split; [done|].
  unfold run_calls. by rewrite foldl_app.
Qed.

(** ** The integrator *)


(** ** Calibration *)

(** C4: on every instance, [update_parameters] with a mapping that has a
    key absent from the parameter store raises a [ValueError] and leaves the
    whole instance, so the store and the coefficient vector, as it was;
    with a mapping whose keys are all in the store it returns, the store
    holds the new value under every supplied key and the old value under
    every other key, and the coefficient vector is the one derived from the
    new store. *)
Theorem C4_update_parameters (a : ctor_args F) cs (m : model F)
    (new_params : gmap string F) :
  instance a cs m →
  ((∃ k, k ∈ dom new_params ∧ k ∉ dom (parameters m)) →
   ∃ msg, update_parameters new_params m = (inl (ValueError msg), m))
  ∧ ((∀ k, k ∈ dom new_params → k ∈ dom (parameters m)) →
     ∃ m' c',
       update_parameters new_params m = (inr (), m') ∧
       parameters m' = new_params ∪ parameters m ∧
       (∀ k, parameters m' !! k
             = match new_params !! k with
               | Some v => Some v
               | None => parameters m !! k
               end) ∧
       coefficients_of m' = Some c' ∧ params_array m' = flatten c').
Proof.
  intros Hi. apply instance_instance_inv in Hi as [[Hd _ _ _ _] _]. split.
  - intros (k & Hk & Hn). eexists. apply update_parameters_unknown.
    intros He. assert (k ∈ dom new_params ∖ dom (parameters m)) as Hin
      by by apply elem_of_difference.
    rewrite He in Hin. by apply not_elem_of_empty in Hin.
  - intros Hknown. apply known_keys_dom in Hknown.
    destruct (update_parameters_inr m new_params) as (vs & Hvs & Hup);
      [done..|].
    eexists. 
    assert (derived (set_params_array (vs ++ [_external_light_interception m])
              (set_parameters (new_params ∪ parameters m) m))) as Hd'
      by by exists vs.
    apply derived_flatten in Hd' as (c' & Hc' & Hpa'). exists c'.
    split; [exact Hup|]. split; [done|]. split; [|done].
    intros k. simpl. rewrite lookup_union. 
    destruct (new_params !! k), (parameters m !! k); done.
Qed.

(** C9: on every instance, a call of [update_parameters] whose keys are all
    in the store returns, and it leaves the biomass state, the step
    interval, the population density and the light interception mode (as
    well as the initial dry weight and the override) as they were. *)
Theorem C9_update_parameters_frame (a : ctor_args F) cs (m : model F)
    (new_params : gmap string F) :
  instance a cs m →
  (∀ k, k ∈ dom new_params → k ∈ dom (parameters m)) →
  ∃ m',
    update_parameters new_params m = (inr (), m') ∧
    state m' = state m ∧ h m' = h m ∧
    plant_density m' = plant_density m ∧
    light_interception_method m' = light_interception_method m ∧
    state0 m' = state0 m ∧
    _external_light_interception m' = _external_light_interception m.
Proof.
  intros Hi Hknown. apply instance_instance_inv in Hi as [[Hd _ _ _ _] _].
  apply known_keys_dom in Hknown.
  destruct (update_parameters_inr m new_params) as (vs & Hvs & Hup);
    [done..|].
  eexists. split; [exact Hup|]. done.
Qed.

(** ** Reset *)

(** C5: on an instance constructed with initial dry weight [w], after any
    sequence of calls, [reset] returns and sets the state to
    [(0.2*w, 0.8*w)], the state right after construction; the parameter
    store, the coefficient vector and the light interception mode stay as
    they were. *)
Theorem C5_reset (a : ctor_args F) cs (m : model F) :
  instance a cs m →
  ∃ m0 m',
    construct a = inr m0 ∧ reset m = (inr (), m') ∧
    state m' = (lit (2 # 10) * arg_plant_dw a, lit (8 # 10) * arg_plant_dw a) ∧
    state m' = state m0 ∧
    parameters m' = parameters m ∧
    params_array m' = params_array m ∧
    light_interception_method m' = light_interception_method m.
Proof.
  intros Hi. destruct (Hi) as (m0 & Hc & _). 
  apply instance_instance_inv in Hi as [[_ H0 _ _ _] _].
  apply construct_instance_inv in Hc as Hm0. destruct Hm0 as (_ & _ & Hs0 & _).
  exists m0. eexists. split; [done|]. split; [apply reset_eq|].
  simpl. rewrite H0, Hs0. split; [|done].
  by rewrite (fmul_comm (lit (2 # 10))), (fmul_comm (lit (8 # 10))).
Qed.

(** ** The coefficient vector *)

(** C10: on every instance, so after construction and after every call of
    [update_parameters], the coefficient vector has 21 slots; the first 20
    are the values of the parameter store under the keys in the fixed
    order, and the 21st is the override: the value of the last accepted
    setter call of the history, [0] when there was none.  In particular it
    is [0] right after construction, and a call of [update_parameters] that
    returns leaves the 21st slot as it was. *)
Theorem C10_coefficient_vector (a : ctor_args F) cs (m : model F) :
  instance a cs m →
  length (params_array m) = 21%nat
  ∧ Forall2 (λ k v, parameters m !! k = Some v)
      ["c_R"; "c_Q10_R"; "c_epsilon"; "c_w"; "g_bnd"; "g_stm";
       "c_car_1"; "c_car_2"; "c_car_3"; "c_gr_max"; "c_r";
       "c_resp_sht"; "c_resp_rt"; "c_Q10_gr"; "c_Q10_resp";
       "c_t"; "c_k"; "c_lar"; "c_a"; "c_b"]
      (take 20 (params_array m))
  ∧ params_array m !! 20%nat = Some (_external_light_interception m)
  ∧ _external_light_interception m = override_after cs (lit 0)
  ∧ (cs = [] → params_array m !! 20%nat = Some (lit 0))
  ∧ (∀ new_params m',
       update_parameters new_params m = (inr (), m') →
       params_array m' !! 20%nat = params_array m !! 20%nat).
Proof.
  intros Hi. apply instance_instance_inv in Hi as [[Hd _ _ _ _] Hext].
  assert (Hslot : ∀ m : model F,
            derived m →
            params_array m !! 20%nat = Some (_external_light_interception m)).
  { intros m1 (vs & Hvs & ->). apply lookup_all_length in Hvs.
    rewrite lookup_app_r by (rewrite Hvs; done). by rewrite Hvs. }
  split; [by apply derived_length|]. split; [|split; [|split; [|split]]].
  - destruct Hd as (vs & Hvs & ->). apply lookup_all_length in Hvs as Hlen.
    rewrite take_app_length' by done. by apply lookup_all_inr.
  - by apply Hslot.
  - done.
  - intros ->. rewrite Hslot by done. by rewrite Hext.
  - intros new_params m' Hup.
    destruct (decide (dom new_params ∖ dom (parameters m) = ∅)) as [Hk|Hk].
    + destruct (update_parameters_inr m new_params) as (vs & Hvs & Hup');
        [done..|].
      rewrite Hup' in Hup. injection Hup as <-.
      rewrite (Hslot m) by done. rewrite Hslot by by exists vs. done.
    + by rewrite update_parameters_unknown in Hup by done.
Qed.

(** ** The override *)

Lemma spec_rate_BeerLambert_take (c1 c2 : coefficients F) x u :
  take 20 (flatten c1) = take 20 (flatten c2) →
  spec_rate BeerLambert c1 x u = spec_rate BeerLambert c2 x u.
Proof.
  destruct c1, c2. simpl. intros [= -> -> -> -> -> -> -> -> -> -> -> -> -> ->
    -> -> -> -> -> ->]. reflexivity.
Qed.

Lemma step_BeerLambert_take (m1 m2 : model F) u :
  light_interception_method m1 = 0%Z →
  light_interception_method m2 = 0%Z →
  state m1 = state m2 → h m1 = h m2 →
  length (params_array m1) = 21%nat →
  length (params_array m2) = 21%nat →
  take 20 (params_array m1) = take 20 (params_array m2) →
  (step u m1).1 = inr () ∧ (step u m2).1 = inr ()
  ∧ state (step u m1).2 = state (step u m2).2.
Proof.
  intros Hm1 Hm2 Hs Hh Hl1 Hl2 Ht.
  apply flatten_surj in Hl1 as [c1 Hc1]. apply flatten_surj in Hl2 as [c2 Hc2].
  rewrite (step_flatten m1 c1), (step_flatten m2 c2) by done. simpl.
  split; [done|]. split; [done|].
  rewrite Hm1, Hm2, Hs, Hh. rewrite Hc1, Hc2 in Ht.
  unfold mode_of_flag. simpl. unfold spec_rk4.
  by rewrite !(spec_rate_BeerLambert_take c1 c2).
Qed.


(** The setter on an instance: a rejected value raises and changes nothing;
    an accepted value is stored in the attribute and in the last slot, and
    with a method other than [0] the interception of the rate function is
    that value at every state. *)
Lemma set_external_light_interception_spec (a : ctor_args F) cs (m : model F)
    (value : F) :
  instance a cs m →
  (accepted value = false →
   set_external_light_interception value m
   = (inl (ValueError Light_interception_must_be_between_0_and_1), m))
  ∧ (accepted value = true →
     ∃ m' c',
       set_external_light_interception value m = (inr (), m') ∧
       _external_light_interception m' = value ∧
       params_array m' !! 20%nat = Some value ∧
       light_interception_method m' = light_interception_method m ∧
       coefficients_of m' = Some c' ∧ params_array m' = flatten c' ∧
       external_light_interception c' = value ∧
       (∀ x u, _model_core x u (params_array m')
                 (light_interception_method m')
               = Some (spec_rate (mode_of_flag (light_interception_method m'))
                         c' x u)) ∧
       (light_interception_method m' ≠ 0%Z →
        ∀ X1, light_interception (light_interception_method m')
                (c_lar c') (c_t c') (c_k c')
                (external_light_interception c') X1 = value)).
Proof.
  intros Hi. apply instance_instance_inv in Hi as [[Hd _ _ _ _] _].
  split; [apply set_external_rejected|].
  intros Hacc. destruct Hd as (vs & Hvs & Hpa).
  apply lookup_all_length in Hvs as Hlen.
  assert (derived (set_params_array (vs ++ [value]) (set_external value m)))
    as Hd' by by exists vs.
  apply derived_flatten in Hd' as (c' & Hc' & Hpa').
  eexists _, c'. split.
  { by apply (set_external_accepted _ _ vs (_external_light_interception m)). }
  assert (external_light_interception c' = value) as Hext.
  { simpl in Hpa'. pose proof (f_equal (λ l, l !! 20%nat) Hpa') as Hl.
    cbv beta in Hl. rewrite lookup_app_r in Hl by (rewrite Hlen; done).
    rewrite Hlen in Hl. simpl in Hl. congruence. }
  split; [done|]. split.
  { simpl. rewrite lookup_app_r by (rewrite Hlen; done). by rewrite Hlen. }
  split; [done|]. split; [done|]. split; [done|]. split; [done|]. split.
  - intros x u. rewrite Hpa'. apply model_core_flatten.
  - intros Hne X1. simpl in *. unfold light_interception.
    by rewrite decide_False.
Qed.

End Properties.

(** ** The worked instance *)

Section Example.
Local Open Scope R_scope.

Lemma example_lookup_all :
  lookup_all example_parameters param_order
  = inr (take 20 (flatten example_coefficients)).
Proof. vm_compute. reflexivity. Qed.

Lemma example_construct : construct example_args = inr example_model.
Proof.
  destruct (construct_inr example_args) as (vs & Hvs & ->).
  - simpl. apply bool_decide_false. lra.
  - simpl. lia.
  - vm_compute. reflexivity.
  - simpl in Hvs. rewrite example_lookup_all in Hvs. injection Hvs as <-.
    reflexivity.
Qed.

Lemma example_instance : instance example_args [] example_model.
Proof. exists example_model. split; [apply example_construct|reflexivity]. Qed.

Lemma example_coefficients_of :
  coefficients_of example_model = Some example_coefficients.
Proof. vm_compute. reflexivity. Qed.

(** A construction without dry weight, one without the key [c_b], and an
    update with a key the store does not have. *)
Example construct_no_dry_weight :
  construct (Ctor 0 90 example_parameters 5 0)
  = inl (ValueError Plant_dry_weight_must_be_positive).
Proof.
  unfold construct, __init__, _validate_inputs.
  cbn [arg_plant_dw arg_plant_density arg_parameters fle Arith_R of_int].
  rewrite bool_decide_true by lra. reflexivity.
Qed.

Example construct_missing_key :
  construct (Ctor 0.04 90 (delete "c_b" example_parameters) 5 0)
  = inl (ValueError (Missing_required_parameters {[ "c_b" ]})).
Proof.
  unfold construct, __init__, _validate_inputs.
  cbn [arg_plant_dw arg_plant_density arg_parameters fle Arith_R of_int].
  rewrite bool_decide_false by lra.
  rewrite bool_decide_false by lia.
  assert (required_params ∖ dom (delete "c_b" example_parameters) = {[ "c_b" ]}) as ->.
  { vm_compute. reflexivity. }
  rewrite decide_False; [done|]. by vm_compute.
Qed.

Example update_unknown_key :
  update_parameters {[ "c_bogus" := 1 ]} example_model
  = (inl (ValueError (Unknown_parameters {[ "c_bogus" ]})), example_model).
Proof.
  assert (dom ({[ "c_bogus" := 1 ]} : gmap string R)
          ∖ dom (parameters example_model) = {[ "c_bogus" ]}) as Hd.
  { vm_compute. reflexivity. }
  rewrite update_parameters_unknown; rewrite Hd; [done|]. by vm_compute.
Qed.

(** ** The range check over the real numbers *)

Lemma accepted_R (v : R) : accepted v = true ↔ 0 <= v <= 1.
Proof.
  unfold accepted. simpl. rewrite andb_true_iff, !bool_decide_eq_true. done.
Qed.

Lemma rejected_R (v : R) : accepted v = false ↔ ¬ (0 <= v <= 1).
Proof. rewrite <-accepted_R. by destruct (accepted v). Qed.


(** ** A step without radiation, over the real numbers *)

(** Without radiation the photosynthesis term vanishes; the rates are those
    of growth out of the assimilate pool and of respiration. *)
Lemma dark_rate_eq (md : mode) (c : coefficients R) x0 x1 (u : controls R) :
  rad u = 0 → pop_density u ≠ 0 → c_b c ≠ 0 →
  let rgr := c_gr_max c
             * (x0 * pop_density u
                / (c_r c * (x1 * pop_density u) + x0 * pop_density u))
             * Rpower (c_Q10_gr c) ((temp u - 20) / 10) in
  let resp := (c_resp_sht c * (1 - c_t c) + c_resp_rt c * c_t c)
              * Rpower (c_Q10_resp c) ((temp u - 25) / 10) in
  spec_rate md c (x0, x1) u
  = (- (rgr * x1) / c_b c - resp * x1, rgr * x1).
Proof.
  destruct u as [t r co pd]. simpl. intros -> Hpd Hcb.
  unfold spec_rate. simpl.
  set (D := (_ * 0 + _)).
  set (rho := x0 * pd / _).
  set (qg := Rpower (c_Q10_gr c) _). set (qr := Rpower (c_Q10_resp c) _).
  set (li := spec_interception _ _ _).
  f_equal.
  - unfold Rdiv. rewrite !Rmult_0_r, !Rmult_0_l, Rmult_0_r. field. done.
  - field. done.
Qed.

Lemma ratio_bounds (X0 X1 cr : R) :
  0 <= X0 → 0 < X1 → 0 < cr →
  0 <= X0 / (cr * X1 + X0) <= 1 ∧ (0 < X0 → 0 < X0 / (cr * X1 + X0)).
Proof.
  intros H0 H1 Hr.
  assert (0 < cr * X1 + X0) as Hd by nra.
  split; [split|].
  - apply Rmult_le_pos; [done|]. left. by apply Rinv_0_lt_compat.
  - apply (Rmult_le_reg_r (cr * X1 + X0)); [done|].
    unfold Rdiv. rewrite Rmult_assoc, Rinv_l by lra. nra.
  - intros. by apply Rdiv_lt_0_compat.
Qed.

Lemma dark_rate_bounds (md : mode) (c : coefficients R) x0 x1 (u : controls R) :
  rad u = 0 → 0 < pop_density u →
  0 <= x0 → 0 < x1 →
  0 <= c_gr_max c → 0 < c_r c → 0 < c_b c <= 1 → 0 <= c_t c <= 1 →
  0 <= c_resp_sht c → 0 <= c_resp_rt c →
  let G := c_gr_max c * Rpower (c_Q10_gr c) ((temp u - 20) / 10) in
  let resp := (c_resp_sht c * (1 - c_t c) + c_resp_rt c * c_t c)
              * Rpower (c_Q10_resp c) ((temp u - 25) / 10) in
  let k := spec_rate md c (x0, x1) u in
  0 <= k.2 <= G * x1
  ∧ (0 < x0 → 0 < c_gr_max c → 0 < k.2)
  ∧ k.1 + k.2 <= 0
  ∧ - (G / c_b c + resp) * x1 <= k.1.
Proof.
  intros Hrad Hpd H0 H1 Hg Hr Hb Ht Hs Hrt. 
  rewrite (dark_rate_eq md c x0 x1 u Hrad) by lra. cbv zeta. simpl.
  destruct (ratio_bounds (x0 * pop_density u) (x1 * pop_density u) (c_r c))
    as [[Hrho0 Hrho1] Hrhopos]; [nra|nra|done|].
  set (rho := x0 * pop_density u / _) in *.
  pose proof (exp_pos ((temp u - 20) / 10 * ln (c_Q10_gr c))) as Hqg.
  pose proof (exp_pos ((temp u - 25) / 10 * ln (c_Q10_resp c))) as Hqr.
  fold (Rpower (c_Q10_gr c) ((temp u - 20) / 10)) in Hqg.
  fold (Rpower (c_Q10_resp c) ((temp u - 25) / 10)) in Hqr.
  set (qg := Rpower (c_Q10_gr c) _) in *. set (qr := Rpower (c_Q10_resp c) _) in *.
  assert (0 <= c_gr_max c * qg) as HG by nra.
  assert (0 <= c_gr_max c * rho * qg <= c_gr_max c * qg) as [Hr0 Hr1].
  { replace (c_gr_max c * rho * qg) with (c_gr_max c * qg * rho) by ring. nra. }
  set (r := c_gr_max c * rho * qg) in *. set (G := c_gr_max c * qg) in *.
  assert (0 <= c_resp_sht c * (1 - c_t c) + c_resp_rt c * c_t c) as Hresp by nra.
  assert (0 <= (c_resp_sht c * (1 - c_t c) + c_resp_rt c * c_t c) * qr) as Hresp'
    by nra.
  set (resp := (_ + _) * qr) in *.
  assert (1 <= / c_b c) as Hic.
  { rewrite <-Rinv_1. apply Rinv_le_contravar; lra. }
  unfold Rdiv. set (ic := / c_b c) in *.
  assert (0 <= r * x1 <= G * x1) as [Ha0 Ha1] by nra.
  set (a := r * x1) in *.
  assert (0 <= resp * x1) as Hb0 by nra. 
  split; [done|]. split.
  { intros Hx0 Hgm. unfold a, r. 
    apply Rmult_lt_0_compat; [|done]. apply Rmult_lt_0_compat; [|done].
    apply Rmult_lt_0_compat; [done|]. by apply Hrhopos; nra. }
  split; nra.
Qed.

Lemma rk4_sign (f : vec R → vec R) (hh : R) (x : vec R) :
  0 <= hh →
  Forall (λ s, (f s).1 + (f s).2 <= 0 ∧ 0 <= (f s).2)
         (rk4_stage_states f hh x) →
  total (spec_rk4 f hh x) <= total x ∧ x.2 <= (spec_rk4 f hh x).2.
Proof.
  intros Hh Hst. unfold rk4_stage_states in Hst.
  apply Forall_cons in Hst as [[H1 G1] Hst].
  apply Forall_cons in Hst as [[H2 G2] Hst].
  apply Forall_cons in Hst as [[H3 G3] Hst].
  apply Forall_cons in Hst as [[H4 G4] _].
  unfold spec_rk4, total.
  set (k1 := f x) in *.
  set (k2 := f (vadd x (smul (hh / $2)%fl k1))) in *.
  set (k3 := f (vadd x (smul (hh / $2)%fl k2))) in *.
  set (k4 := f (vadd x (smul hh k3))) in *.
  simpl. 
  assert (0 <= hh / 6) as H6 by lra.
  set (h6 := hh / 6) in *.
  split; nra.
Qed.


Lemma example_rate_bounds (x0 x1 : R) :
  0 <= x0 → 0 < x1 →
  let k := spec_rate BeerLambert example_coefficients (x0, x1) example_dark in
  0 <= k.2 <= 8e-6 * x1 ∧ (0 < x0 → 0 < k.2) ∧ -1.1e-5 * x1 <= k.1
  ∧ k.1 + k.2 <= 0.
Proof.
  intros H0 H1.
  destruct (dark_rate_bounds BeerLambert example_coefficients x0 x1
              example_dark) as ([Hk0 Hk1] & Hpos & Htot & Hlo);
    ex_cbn; try done; try lra.
  ex_cbn_in Hk0; ex_cbn_in Hk1; ex_cbn_in Hpos; ex_cbn_in Hlo; ex_cbn_in Htot.
  assert (Rpower 1.6 ((22 - 20) / 10) < 1.6) as Hqg.
  { rewrite <-(Rpower_1 1.6) at 2 by lra. apply Rpower_lt; lra. }
  assert (Rpower 2 ((22 - 25) / 10) < 1) as Hqr.
  { rewrite <-(Rpower_O 2) by lra. apply Rpower_lt; lra. }
  pose proof (exp_pos ((22 - 20) / 10 * ln 1.6)) as Hqg0.
  pose proof (exp_pos ((22 - 25) / 10 * ln 2)) as Hqr0.
  fold (Rpower 1.6 ((22 - 20) / 10)) in Hqg0.
  fold (Rpower 2 ((22 - 25) / 10)) in Hqr0.
  set (qg := Rpower 1.6 _) in *. set (qr := Rpower 2 _) in *.
  cbv zeta. set (k := spec_rate _ _ _ _) in *.
  split; [split; [done|nra]|]. split; [intros; apply Hpos; lra|].
  split; [nra|done].
Qed.

Lemma example_dark_stages :
  let f := λ x, spec_rate BeerLambert example_coefficients x example_dark in
  let hh := IZR (h example_model) in
  let x := state example_model in
  Forall (λ s, 0 <= s.1 ∧ 0 < s.2) (rk4_stage_states f hh x)
  ∧ x.2 < (spec_rk4 f hh x).2.
Proof.
  cbv zeta. unfold rk4_stage_states, spec_rk4.
  cbn [state h example_model].
  change (IZR (5 * 60)) with 300.
  set (a0 := 0.04 * Q2R (2 # 10)). set (b0 := 0.04 * Q2R (8 # 10)).
  assert (a0 = 0.008) as Ha0 by (unfold a0; lra).
  assert (b0 = 0.032) as Hb0 by (unfold b0; lra).
  clearbody a0 b0.
  pose proof (example_rate_bounds a0 b0) as B1. cbv zeta in B1.
  destruct (spec_rate BeerLambert example_coefficients (a0, b0)
              example_dark) as [k11 k12].
  unfold vadd, smul. cbn [fst snd fadd fmul fdiv of_int Arith_R] in *.
  destruct B1 as ([B1a B1b] & B1c & B1d & B1e); [lra..|].
  pose proof (example_rate_bounds (a0 + 300 / 2 * k11)
                (b0 + 300 / 2 * k12)) as B2. cbv zeta in B2.
  destruct (spec_rate BeerLambert example_coefficients
              (a0 + 300 / 2 * k11, b0 + 300 / 2 * k12)
              example_dark) as [k21 k22].
  cbn [fst snd] in *.
  destruct B2 as ([B2a B2b] & B2c & B2d & B2e); [lra..|].
  pose proof (example_rate_bounds (a0 + 300 / 2 * k21)
                (b0 + 300 / 2 * k22)) as B3. cbv zeta in B3.
  destruct (spec_rate BeerLambert example_coefficients
              (a0 + 300 / 2 * k21, b0 + 300 / 2 * k22)
              example_dark) as [k31 k32].
  cbn [fst snd] in *.
  destruct B3 as ([B3a B3b] & B3c & B3d & B3e); [lra..|].
  pose proof (example_rate_bounds (a0 + 300 * k31)
                (b0 + 300 * k32)) as B4. cbv zeta in B4.
  destruct (spec_rate BeerLambert example_coefficients
              (a0 + 300 * k31, b0 + 300 * k32)
              example_dark) as [k41 k42].
  cbn [fst snd] in *.
  destruct B4 as ([B4a B4b] & B4c & B4d & B4e); [lra..|].
  split.
  - repeat (apply List.Forall_cons; [cbn [fst snd]; lra|]). apply List.Forall_nil.
  - assert (0 < k12) by (apply B1c; lra). lra.
Qed.




End Example.

(** ** The theorems at the worked instance *)

Section Witnesses.
Local Open Scope fl_scope.



(** The hypotheses of C5 hold on the worked instance. *)
Lemma C5_witness :
  instance example_args [] example_model
  ∧ ∃ m0 m',
      construct example_args = inr m0 ∧ reset example_model = (inr (), m') ∧
      state m' = (lit (2 # 10) * arg_plant_dw example_args,
                  lit (8 # 10) * arg_plant_dw example_args) ∧
      state m' = state m0 ∧
      parameters m' = parameters example_model ∧
      params_array m' = params_array example_model ∧
      light_interception_method m'
      = light_interception_method example_model.
Proof.
  split; [exact example_instance|].
  exact (C5_reset example_args [] example_model example_instance).
Defined.

(** The hypotheses of C9 hold on the worked instance. *)
Lemma C9_witness :
  instance example_args [] example_model
  ∧ (∀ k, k ∈ dom example_update → k ∈ dom (parameters example_model))
  ∧ ∃ m',
      update_parameters example_update example_model = (inr (), m') ∧
      state m' = state example_model ∧ h m' = h example_model ∧
      plant_density m' = plant_density example_model ∧
      light_interception_method m'
      = light_interception_method example_model ∧
      state0 m' = state0 example_model ∧
      _external_light_interception m'
      = _external_light_interception example_model.
Proof.
  assert (∀ k, k ∈ dom example_update → k ∈ dom (parameters example_model))
    as Hknown.
  { apply known_keys_dom. vm_compute. reflexivity. }
  split; [exact example_instance|]. split; [exact Hknown|].
  exact (C9_update_parameters_frame example_args [] example_model
           example_update example_instance Hknown).
Defined.

(** The hypotheses of C4 hold on the worked instance. *)
Lemma C4_witness :
  instance example_args [] example_model
  ∧ ((∃ k, k ∈ dom example_update ∧ k ∉ dom (parameters example_model)) →
     ∃ msg, update_parameters example_update example_model
            = (inl (ValueError msg), example_model))
  ∧ ((∀ k, k ∈ dom example_update → k ∈ dom (parameters example_model)) →
     ∃ m' c',
       update_parameters example_update example_model = (inr (), m') ∧
       parameters m' = example_update ∪ parameters example_model ∧
       (∀ k, parameters m' !! k
             = match example_update !! k with
               | Some v => Some v
               | None => parameters example_model !! k
               end) ∧
       coefficients_of m' = Some c' ∧ params_array m' = flatten c').
Proof.
  split; [exact example_instance|].
  exact (C4_update_parameters example_args [] example_model example_update
           example_instance).
Defined.


(** The hypotheses of C10 hold on the worked instance. *)
Lemma C10_witness :
  instance example_args [] example_model
  ∧ length (params_array example_model) = 21%nat
  ∧ Forall2 (λ k v, parameters example_model !! k = Some v)
      ["c_R"; "c_Q10_R"; "c_epsilon"; "c_w"; "g_bnd"; "g_stm";
       "c_car_1"; "c_car_2"; "c_car_3"; "c_gr_max"; "c_r";
       "c_resp_sht"; "c_resp_rt"; "c_Q10_gr"; "c_Q10_resp";
       "c_t"; "c_k"; "c_lar"; "c_a"; "c_b"]
      (take 20 (params_array example_model))
  ∧ params_array example_model !! 20%nat
    = Some (_external_light_interception example_model)
  ∧ _external_light_interception example_model = override_after [] (lit 0)
  ∧ (([] : list (call R)) = [] →
     params_array example_model !! 20%nat = Some (lit 0))
  ∧ (∀ new_params m',
       update_parameters new_params example_model = (inr (), m') →
       params_array m' !! 20%nat = params_array example_model !! 20%nat).
Proof.
  split; [exact example_instance|].
  exact (C10_coefficient_vector example_args [] example_model
           example_instance).
Defined.

End Witnesses.

(** * Further properties of the model, the script and the renderer's input *)

Section MoreProperties.
Context {F : Type} `{Arith F}.
Local Open Scope fl_scope.

(** ** The calls of the class *)


Lemma model_eta (m : model F) :
  set_params_array (params_array m) (set_parameters (parameters m) m) = m.
Proof. by destruct m. Qed.

(** X2: on every instance two updates in a row, each with known keys, leave
    the same instance as the one update with the merged mapping, in which
    the later values win. *)
Theorem X2_update_parameters_compose (a : ctor_args F) cs (m : model F)
    (p1 p2 : gmap string F) :
  instance a cs m →
  (∀ k, k ∈ dom p1 → k ∈ dom (parameters m)) →
  (∀ k, k ∈ dom p2 → k ∈ dom (parameters m)) →
  ∃ m1 m2,
    update_parameters p1 m = (inr (), m1) ∧
    update_parameters p2 m1 = (inr (), m2) ∧
    update_parameters (p2 ∪ p1) m = (inr (), m2).
Proof.
  intros Hi H1 H2.
  pose proof (instance_snoc a cs (Call_update_parameters p1) m Hi) as Hi1.
  apply instance_instance_inv in Hi as [[Hd _ _ _ _] _].
  apply instance_instance_inv in Hi1 as [[Hd1 _ _ _ _] _]. simpl in Hd1.
  apply known_keys_dom in H1 as H1'.
  destruct (update_parameters_inr m p1) as (vs1 & Hvs1 & Hup1); [done..|].
  rewrite Hup1 in Hd1. simpl in Hd1.
  set (m1 := set_params_array _ _) in *.
  assert (dom p2 ∖ dom (parameters m1) = ∅) as H2'.
  { apply known_keys_dom. intros k Hk. simpl. rewrite dom_union_L.
    apply elem_of_union_r. by apply H2. }
  destruct (update_parameters_inr m1 p2) as (vs2 & Hvs2 & Hup2); [done..|].
  assert (dom (p2 ∪ p1) ∖ dom (parameters m) = ∅) as H12.
  { apply known_keys_dom. intros k. rewrite dom_union_L, elem_of_union.
    intros [?|?]; auto. }
  destruct (update_parameters_inr m (p2 ∪ p1)) as (vs & Hvs & Hup); [done..|].
  exists m1, (set_params_array (vs2 ++ [_external_light_interception m1])
                (set_parameters (p2 ∪ parameters m1) m1)).
  split; [done|]. split; [done|]. rewrite Hup.
  subst m1. simpl in *.
  rewrite (assoc_L (∪)) in Hvs2. rewrite Hvs in Hvs2. injection Hvs2 as <-.
  by rewrite (assoc_L (∪)).
Qed.

(** X3: on every instance an update with values the store already holds,
    and so the update with no argument, returns and changes nothing: the
    array derived anew is the array the instance had. *)
Theorem X3_update_parameters_noop (a : ctor_args F) cs (m : model F)
    (new_params : gmap string F) :
  instance a cs m →
  new_params ⊆ parameters m →
  update_parameters new_params m = (inr (), m).
Proof.
  intros Hi Hsub. apply instance_instance_inv in Hi as [[Hd _ _ _ _] _].
  assert (dom new_params ∖ dom (parameters m) = ∅) as Hk.
  { apply known_keys_dom. intros k Hk. eapply subseteq_dom; done. }
  destruct (update_parameters_inr m new_params) as (vs & Hvs & ->); [done..|].
  rewrite (map_subseteq_union _ _ Hsub) in *.
  destruct Hd as (vs' & Hvs' & Hpa). rewrite Hvs' in Hvs. injection Hvs as <-.
  rewrite <-Hpa. by rewrite model_eta.
Qed.

(** X4: on every instance an accepted setter call and an update with known
    keys commute: both orders return and leave the same instance. *)
Theorem X4_setter_update_commute (a : ctor_args F) cs (m : model F)
    (value : F) (new_params : gmap string F) :
  instance a cs m →
  accepted value = true →
  (∀ k, k ∈ dom new_params → k ∈ dom (parameters m)) →
  ∃ m1 m2 m',
    set_external_light_interception value m = (inr (), m1) ∧
    update_parameters new_params m1 = (inr (), m') ∧
    update_parameters new_params m = (inr (), m2) ∧
    set_external_light_interception value m2 = (inr (), m').
Proof.
  intros Hi Hacc Hknown. apply known_keys_dom in Hknown.
  apply instance_instance_inv in Hi as [[Hd _ _ _ _] _].
  destruct (Hd) as (vs & Hvs & Hpa). apply lookup_all_length in Hvs as Hlen.
  pose proof (set_external_accepted m value vs _ Hacc Hlen Hpa) as Hset.
  destruct (update_parameters_inr m new_params) as (vs' & Hvs' & Hup);
    [done..|].
  apply lookup_all_length in Hvs' as Hlen'.
  set (m1 := set_params_array (vs ++ [value]) (set_external value m)) in *.
  assert (derived m1) as Hd1 by by exists vs.
  destruct (update_parameters_inr m1 new_params) as (vs1 & Hvs1 & Hup1);
    [done..|].
  set (m2 := set_params_array (vs' ++ [_external_light_interception m])
               (set_parameters (new_params ∪ parameters m) m)) in *.
  pose proof (set_external_accepted m2 value vs'
                (_external_light_interception m) Hacc Hlen' eq_refl) as Hset2.
  eexists m1, m2, _. split; [done|]. split; [exact Hup1|]. split; [done|].
  rewrite Hset2. subst m1 m2. simpl in *.
  rewrite Hvs' in Hvs1. by injection Hvs1 as <-.
Qed.

(** X5: on every instance an accepted setter call makes an earlier setter
    call, accepted or rejected, irrelevant. *)
Theorem X5_setter_last_value_wins (a : ctor_args F) cs (m : model F)
    (v1 v2 : F) :
  instance a cs m →
  accepted v2 = true →
  set_external_light_interception v2
    (set_external_light_interception v1 m).2
  = set_external_light_interception v2 m.
Proof.
  intros Hi Hacc. apply instance_instance_inv in Hi as [[Hd _ _ _ _] _].
  destruct Hd as (vs & Hvs & Hpa). apply lookup_all_length in Hvs as Hlen.
  rewrite (set_external_accepted m v2 vs _ Hacc Hlen Hpa).
  destruct (accepted v1) eqn:Hacc1.
  - rewrite (set_external_accepted m v1 vs _ Hacc1 Hlen Hpa). simpl.
    rewrite (set_external_accepted
               (set_params_array (vs ++ [v1]) (set_external v1 m))
               v2 vs v1 Hacc Hlen eq_refl).
    reflexivity.
  - rewrite (set_external_rejected m v1) by done. simpl.
    by rewrite (set_external_accepted m v2 vs _ Hacc Hlen Hpa).
Qed.

Lemma lookup_all_agree (d1 d2 : gmap string F) ks :
  (∀ k, k ∈ ks → d1 !! k = d2 !! k) → lookup_all d1 ks = lookup_all d2 ks.
Proof.
  induction ks as [|k ks IH]; intros Hag; [done|].
  rewrite !lookup_all_cons, (Hag k) by by left.
  rewrite IH; [done|]. intros k' Hk'. apply Hag. by right.
Qed.



Lemma set_state_eta (m : model F) : set_state (state m) m = m.
Proof. by destruct m. Qed.

Lemma run_calls_steps_resets (a : ctor_args F) cs0 (m : model F) cs :
  instance a cs0 m →
  forallb is_step_or_reset cs = true →
  ∃ x, run_calls cs m = set_state x m.
Proof.
  revert cs0 m. induction cs as [|c cs IH]; intros cs0 m Hi Hcs.
  { exists (state m). by rewrite set_state_eta. }
  simpl in Hcs. apply andb_true_iff in Hcs as [Hc Hcs].
  pose proof (instance_snoc a cs0 c m Hi) as Hi'.
  destruct (IH _ _ Hi' Hcs) as [x Hx].
  change (run_calls (c :: cs) m) with (run_calls cs (run_call c m).2).
  rewrite Hx. destruct c as [u| | |]; try done; simpl.
  - apply instance_instance_inv in Hi as [[Hd _ _ _ _] _].
    apply derived_flatten in Hd as (c' & _ & Hpa).
    rewrite (step_flatten m c' u Hpa). simpl. by exists x.
  - by exists x.
Qed.

(** X7: after any sequence of [step] and [reset] calls on a new instance,
    [reset] gives back the new instance, attribute by attribute. *)
Theorem X7_reset_undoes_steps (a : ctor_args F) (m0 : model F) cs :
  construct a = inr m0 →
  forallb is_step_or_reset cs = true →
  run_calls (cs ++ [Call_reset]) m0 = m0.
Proof.
  intros Hc Hcs.
  assert (instance a [] m0) as Hi by (by exists m0).
  destruct (run_calls_steps_resets a [] m0 cs Hi Hcs) as [x Hx].
  unfold run_calls in *. rewrite foldl_app. simpl. rewrite Hx.
  apply construct_instance_inv in Hc as (_ & _ & Hs & _).
  apply instance_instance_inv in Hi as [[_ H0 _ _ _] _].
  destruct m0; simpl in *. by rewrite H0, <-Hs.
Qed.
End MoreProperties.

Section RealProperties.
Local Open Scope R_scope.

(** ** The rate function and the integrator over the real numbers *)


Lemma rk4_fixed_point (f : vec R → vec R) (hh : R) (x : vec R) :
  f x = (0, 0) → spec_rk4 f hh x = x.
Proof.
  intros Hf. unfold spec_rk4.
  assert (∀ s, vadd x (smul s (0, 0)) = x) as Hst.
  { intros s. destruct x as [a b]. unfold vadd, smul.
    cbn [fst snd fadd fmul Arith_R]. clear Hf. apply pair_equal_spec. split; lra. }
  rewrite Hf, Hst, Hf, Hst, Hf, Hst, Hf. destruct x as [a b].
  unfold vadd, smul. cbn [fst snd fadd fmul fdiv of_int Arith_R].
  apply pair_equal_spec. split; lra.
Qed.

(** X9: over the real numbers, on every instance, if the rate function is
    [(0, 0)] at the state, [step] returns and leaves the instance as it
    was. *)
Theorem X9_equilibrium_is_kept (a : ctor_args R) cs (m : model R)
    (u : controls R) :
  instance a cs m →
  _model_core (state m) u (params_array m) (light_interception_method m)
  = Some (0, 0) →
  step u m = (inr (), m).
Proof.
  intros Hi Hk. apply instance_instance_inv in Hi as [[Hd _ _ _ _] _].
  apply derived_flatten in Hd as (c & _ & Hpa).
  rewrite (step_flatten m c u Hpa). rewrite Hpa, model_core_flatten in Hk.
  apply (inj Some) in Hk. rewrite rk4_fixed_point by exact Hk. by destruct m.
Qed.
End RealProperties.

Section ScriptProperties.
Context {F : Type} `{Arith F} `{ArithMore F}.
Local Open Scope fl_scope.

(** ** The main loop of the script *)

Lemma step_run_call (a : ctor_args F) cs (m : model F) u :
  instance a cs m →
  step u m = (inr (), run_calls [Call_step u] m).
Proof.
  intros Hi. apply instance_instance_inv in Hi as [[Hd _ _ _ _] _].
  apply derived_flatten in Hd as (c & _ & Hpa).
  unfold run_calls. simpl. by rewrite (step_flatten m c u Hpa).
Qed.


Lemma main_loop_spec (a : ctor_args F) cs (m : model F) rows prev :
  instance a cs m →
  ∃ frames,
    main_loop rows prev m = (inr frames, run_calls (steps_of rows) m)
    ∧ Forall (λ f, (render_timestep f `mod` 24 = 0)%Z
                   ∧ render_day f = (render_timestep f `div` 24)%Z
                   ∧ frame_of_row rows m f) frames
    ∧ (∀ f, head frames = Some f → render_timestep f ≠ prev)
    ∧ (∀ j f g, frames !! j = Some f → frames !! S j = Some g →
               render_timestep f ≠ render_timestep g).
Proof.
  revert cs m prev. induction rows as [|r rows IH]; intros cs m prev Hi.
  { exists []. split; [done|]. split; [constructor|]. split; [done|].
    intros j f g Hf. by rewrite lookup_nil in Hf. }
  pose proof (instance_snoc a cs (Call_step (row_action r)) m Hi) as Hi'.
  pose proof (step_run_call a cs m (row_action r) Hi) as Hstep.
  simpl. unfold mbind at 1, M_bind at 1. rewrite Hstep.
  set (m1 := run_calls [Call_step (row_action r)] m) in *.
  assert (Hshift : ∀ f, frame_of_row rows m1 f → frame_of_row (r :: rows) m f).
  { intros f (i & r' & Hr' & Ht & Hp & Hd). exists (S i), r'.
    split; [done|]. split; [done|]. split; [done|]. rewrite Hd. done. }
  destruct (bool_decide (fint (row_hour_order r) `mod` 24 = 0)%Z
            && negb (bool_decide (fint (row_hour_order r) = prev))) eqn:Hcond.
  - apply andb_true_iff in Hcond as [Hmod Hne].
    apply bool_decide_eq_true in Hmod. apply negb_true_iff in Hne.
    apply bool_decide_eq_false in Hne.
    destruct (IH _ m1 (fint (row_hour_order r)) Hi')
      as (frames & Hloop & Hall & Hhead & Hadj).
    eexists (_ :: frames). split.
    { unfold mbind, M_bind, self. simpl. rewrite Hloop. reflexivity. }
    split; [|split].
    + constructor.
      * simpl. split; [done|]. split; [done|]. exists 0%nat, r. done.
      * eapply Forall_impl; [exact Hall|]. intros f (? & ? & ?). auto.
    + intros f [= <-]. done.
    + intros [|j] f g; simpl.
      * intros [= <-] Hg. simpl. intros Heq. eapply (Hhead g); [|done].
        by destruct frames; simplify_eq.
      * apply Hadj.
  - destruct (IH _ m1 prev Hi') as (frames & Hloop & Hall & Hhead & Hadj).
    exists frames. split; [exact Hloop|]. split; [|done].
    eapply Forall_impl; [exact Hall|]. intros f (? & ? & ?). auto.
Qed.

Lemma main_loop_sorted (a : ctor_args F) cs (m : model F) rows prev :
  instance a cs m →
  StronglySorted Z.lt (prev :: hour_orders rows) →
  ∃ frames,
    main_loop rows prev m = (inr frames, run_calls (steps_of rows) m)
    ∧ map render_timestep frames
      = filter (λ h, h `mod` 24 = 0)%Z (hour_orders rows).
Proof.
  revert cs m prev. induction rows as [|r rows IH]; intros cs m prev Hi Hs.
  { by exists []. }
  pose proof (instance_snoc a cs (Call_step (row_action r)) m Hi) as Hi'.
  pose proof (step_run_call a cs m (row_action r) Hi) as Hstep.
  simpl. unfold mbind at 1, M_bind at 1. rewrite Hstep.
  set (m1 := run_calls [Call_step (row_action r)] m) in *.
  simpl in Hs. apply StronglySorted_inv in Hs as [Hs Hprev].
  apply Forall_cons in Hprev as [Hlt Hprev].
  assert (StronglySorted Z.lt (prev :: hour_orders rows)) as Hs1.
  { apply StronglySorted_inv in Hs as [Hs _]. by constructor. }
  rewrite (bool_decide_false (fint (row_hour_order r) = prev)) by lia.
  rewrite andb_true_r.
  destruct (decide (fint (row_hour_order r) `mod` 24 = 0)%Z) as [Hmod|Hmod].
  - rewrite bool_decide_true by done.
    destruct (IH _ m1 (fint (row_hour_order r)) Hi' Hs)
      as (frames & Hloop & Hts).
    eexists (_ :: frames). split.
    { unfold mbind, M_bind, self. simpl. rewrite Hloop. reflexivity. }
    simpl. rewrite filter_cons_True by done. by rewrite Hts.
  - rewrite bool_decide_false by done.
    destruct (IH _ m1 prev Hi' Hs1) as (frames & Hloop & Hts).
    exists frames. split; [exact Hloop|].
    by rewrite filter_cons_False by done.
Qed.

Lemma main_cons (m : model F) (r0 : row F) rows :
  main (r0 :: rows) m
  = match main_loop (r0 :: rows) (fint (row_hour_order r0)) m with
    | (inl e, m') => (inl e, m')
    | (inr frames, m') =>
        (inr (Render (total (state m)) (fint (pop_density (row_action r0)))
                (fint (row_hour_order r0)) 0 :: frames), m')
    end.
Proof. reflexivity. Qed.



End ScriptProperties.

Section GridProperties.
Context {F : Type} `{Arith F} `{ArithMore F} `{Numpy F}.
Local Open Scope fl_scope.

(** ** The planting grid *)

Lemma grid_loop_done fuel target ratio c r :
  (target ≤ c * r)%Z → grid_loop fuel target ratio c r = Some (inr (c, r)).
Proof.
  intros Hge. destruct fuel; simpl; by rewrite bool_decide_false by lia.
Qed.

Lemma grid_loop_spec fuel target (ratio : F) c r :
  (1 ≤ c)%Z → (1 ≤ r)%Z →
  (2 * target ≤ c + r + Z.of_nat fuel)%Z →
  ∃ c' r',
    grid_loop fuel target ratio c r = Some (inr (c', r'))
    ∧ (c ≤ c')%Z ∧ (r ≤ r')%Z ∧ (target ≤ c' * r')%Z
    ∧ ((c', r') = (c, r)
       ∨ ((c' - 1) * r' < target)%Z ∨ (c' * (r' - 1) < target)%Z).
Proof.
  revert c r. induction fuel as [|fuel IH]; intros c r Hc Hr Hfuel.
  - assert (target ≤ c * r)%Z by nia.
    exists c, r. rewrite grid_loop_done by done. repeat split; auto; lia.
  - destruct (decide (target ≤ c * r)%Z) as [Hge|Hlt].
    { exists c, r. rewrite grid_loop_done by done. repeat split; auto; lia. }
    simpl. rewrite bool_decide_true by lia. rewrite decide_False by lia.
    destruct ($c / $r <? ratio).
    + destruct (IH (c + 1)%Z r) as (c' & r' & Hl & Hc' & Hr' & Hp & Hmin);
        [lia..|].
      exists c', r'. split; [done|]. repeat split; try lia.
      destruct Hmin as [[= -> ->]|Hmin]; [|by right].
      right. left. replace (c + 1 - 1)%Z with c by lia. lia.
    + destruct (IH c (r + 1)%Z) as (c' & r' & Hl & Hc' & Hr' & Hp & Hmin);
        [lia..|].
      exists c', r'. split; [done|]. repeat split; try lia.
      destruct Hmin as [[= -> ->]|Hmin]; [|by right].
      right. right. replace (r + 1 - 1)%Z with r by lia. lia.
Qed.

Lemma grid_loop_no_rows fuel target (ratio : F) c :
  (0 < target)%Z →
  grid_loop (S fuel) target ratio c 0 = Some (inl ZeroDivisionError).
Proof.
  intros Ht. simpl. by rewrite bool_decide_true by lia.
Qed.

Lemma concat_const_lookup {A} (row : list A) (n i j : nat) :
  (i < n)%nat → (j < length row)%nat →
  concat (replicate n row) !! (i * length row + j)%nat = row !! j.
Proof.
  revert i. induction n as [|n IH]; intros i Hi Hj; [lia|].
  simpl. destruct i as [|i].
  - simpl. by rewrite lookup_app_l.
  - rewrite lookup_app_r by (simpl; lia).
    replace (S i * length row + j - length row)%nat
      with (i * length row + j)%nat by (simpl; lia).
    apply IH; lia.
Qed.

Lemma concat_rows_lookup {A} (zs : list A) (c i j : nat) z :
  zs !! i = Some z → (j < c)%nat →
  concat (map (λ z, replicate c z) zs) !! (i * c + j)%nat = Some z.
Proof.
  revert i. induction zs as [|z0 zs IH]; intros i Hz Hj; [done|].
  simpl. destruct i as [|i].
  - simpl in *. injection Hz as ->. rewrite lookup_app_l by (rewrite length_replicate; lia).
    by apply lookup_replicate_2.
  - rewrite lookup_app_r by (rewrite length_replicate; simpl; lia).
    rewrite length_replicate.
    replace (S i * c + j - c)%nat with (i * c + j)%nat by (simpl; lia).
    by apply IH.
Qed.

Lemma coordinate_layout fuel (plant_density : Z) (L W : F) n_cols n_rows :
  grid_dimensions fuel plant_density L W = Some (inr (n_cols, n_rows)) →
  ∃ x_positions z_positions,
    _coordinate_calculation_vectorized fuel plant_density L W
    = Some (inr (x_positions, z_positions))
    ∧ length x_positions = (Z.to_nat n_rows * Z.to_nat n_cols)%nat
    ∧ length z_positions = (Z.to_nat n_rows * Z.to_nat n_cols)%nat
    ∧ ∀ i j, (i < Z.to_nat n_rows)%nat → (j < Z.to_nat n_cols)%nat →
        x_positions !! (i * Z.to_nat n_cols + j)%nat
        = linspace (- L / $2) (L / $2) n_cols !! j
        ∧ z_positions !! (i * Z.to_nat n_cols + j)%nat
          = linspace (- W / $2) (W / $2) n_rows !! i.
Proof.
  intros Hd. unfold _coordinate_calculation_vectorized. rewrite Hd.
  set (xv := linspace (- L / $2) (L / $2) n_cols).
  set (zv := linspace (- W / $2) (W / $2) n_rows).
  assert (length xv = Z.to_nat n_cols) as Hx by apply linspace_length.
  assert (length zv = Z.to_nat n_rows) as Hz by apply linspace_length.
  eexists _, _. split; [done|].
  assert (map (λ _ : F, xv) zv = replicate (length zv) xv) as Hm.
  { clear. induction zv; simpl; congruence. }
  split; [|split].
  - rewrite Hm, length_concat, fmap_replicate, sum_list_replicate.
    by rewrite Hx, Hz.
  - rewrite <-Hz. clear. induction zv as [|z zv IH]; [done|].
    simpl. by rewrite length_app, length_replicate, IH.
  - intros i j Hi Hj. split.
    + rewrite Hm, <-Hx. apply concat_const_lookup; lia.
    + destruct (lookup_lt_is_Some_2 zv i) as [z Hzi]; [lia|].
      rewrite Hzi. by apply concat_rows_lookup.
Qed.

(** X15: the loop that enlarges the grid.  It returns at once when the
    grid holds the target; it raises [ZeroDivisionError] when the target
    is not reached and there is no row; from at least one column and one
    row it returns within [2*target_points] iterations, with no fewer
    columns and rows than it started from, a grid that holds the target,
    and none to spare: unless nothing was added, one column or one row
    less would not hold it. *)
Theorem X15_grid_loop fuel target_points (ratio : F) n_cols n_rows :
  ((target_points ≤ n_cols * n_rows)%Z →
   grid_loop fuel target_points ratio n_cols n_rows
   = Some (inr (n_cols, n_rows)))
  ∧ ((n_cols * 0 < target_points)%Z →
     grid_loop (S fuel) target_points ratio n_cols 0
     = Some (inl ZeroDivisionError))
  ∧ ((1 ≤ n_cols)%Z → (1 ≤ n_rows)%Z →
     (2 * target_points ≤ n_cols + n_rows + Z.of_nat fuel)%Z →
     ∃ c r,
       grid_loop fuel target_points ratio n_cols n_rows = Some (inr (c, r))
       ∧ (n_cols ≤ c)%Z ∧ (n_rows ≤ r)%Z ∧ (target_points ≤ c * r)%Z
       ∧ ((c, r) = (n_cols, n_rows)
          ∨ ((c - 1) * r < target_points)%Z
          ∨ (c * (r - 1) < target_points)%Z)).
Proof.
  split; [apply grid_loop_done|]. split.
  - intros Ht. apply grid_loop_no_rows. lia.
  - apply grid_loop_spec.
Qed.

(** X16: when the numbers of columns and rows are found, the function
    returns two arrays of [n_rows * n_cols] entries, filled row by row:
    entry [i * n_cols + j] of the first is the [j]-th of the [n_cols]
    samples along the length, and of the second the [i]-th of the
    [n_rows] samples along the width. *)
Theorem X16_grid_layout fuel (plant_density : Z) (L W : F) n_cols n_rows :
  grid_dimensions fuel plant_density L W = Some (inr (n_cols, n_rows)) →
  ∃ x_positions z_positions,
    _coordinate_calculation_vectorized fuel plant_density L W
    = Some (inr (x_positions, z_positions))
    ∧ length x_positions = (Z.to_nat n_rows * Z.to_nat n_cols)%nat
    ∧ length z_positions = (Z.to_nat n_rows * Z.to_nat n_cols)%nat
    ∧ ∀ i j, (i < Z.to_nat n_rows)%nat → (j < Z.to_nat n_cols)%nat →
        x_positions !! (i * Z.to_nat n_cols + j)%nat
        = linspace (- L / $2) (L / $2) n_cols !! j
        ∧ z_positions !! (i * Z.to_nat n_cols + j)%nat
          = linspace (- W / $2) (W / $2) n_rows !! i.
Proof. apply coordinate_layout. Qed.

End GridProperties.

Section VisualReal.
Local Open Scope R_scope.

(** ** The scale of a plant over the real numbers *)

Lemma cubic_increasing (a0 a1 a2 a3 x y : R) :
  0 < a3 → a2 * a2 < 3 * a1 * a3 → x < y →
  a0 + x * (a1 + x * (a2 + x * a3)) < a0 + y * (a1 + y * (a2 + y * a3)).
Proof.
  intros H3 Hd Hxy.
  assert (0 < a1 + a2 * (x + y) + a3 * (x * x + x * y + y * y)) as HQ.
  { pose proof (Rle_0_sqr (2 * a3 * x + a3 * y + a2)).
    pose proof (Rle_0_sqr (3 * a3 * y + a2)). unfold Rsqr in *.
    assert (0 < 12 * a3 * (a1 + a2 * (x + y) + a3 * (x * x + x * y + y * y)))
      by nra.
    nra. }
  nra.
Qed.

Lemma calculate_scale_R (dw : R) :
  _calculate_scale dw = Some (sqrt (coverage_R dw)).
Proof.
  unfold _calculate_scale, coverage_R, _3_degree_polynomial. simpl.
  unfold bool_decide. destruct (decide_rel Rlt dw (Q2R 0.3)) as [Hlt|Hlt];
    simpl; destruct (decide (dw < 0.3)) as [Hlt'|Hlt']; try done; lra.
Qed.

Lemma coverage_R_increasing (x y : R) :
  x < y → coverage_R x < coverage_R y.
Proof.
  intros Hxy. unfold coverage_R.
  destruct (decide (x < 0.3)) as [Hx|Hx], (decide (y < 0.3)) as [Hy|Hy].
  - apply cubic_increasing; lra.
  - apply Rlt_trans with
      (7.985305504553652
       + 0.3 * (291.73135988978663
                + 0.3 * (-707.7401261511758 + 0.3 * 772.4044195923515))).
    { apply cubic_increasing; lra. }
    apply Rlt_le_trans with
      (30.9961439725485
       + 0.3 * (76.16800558950729
                + 0.3 * (-6.5045717125301445 + 0.3 * 0.26365904070466195))).
    { lra. }
    destruct (Req_dec_T y 0.3) as [->|Hne]; [lra|].
    left. apply cubic_increasing; lra.
  - lra.
  - apply cubic_increasing; lra.
Qed.

Lemma coverage_R_lower (dw : R) : 0 <= dw → 7.98 < coverage_R dw.
Proof.
  intros Hdw. destruct (Req_dec_T dw 0) as [->|Hne].
  - unfold coverage_R. rewrite decide_True by lra. lra.
  - apply Rlt_trans with (coverage_R 0).
    + unfold coverage_R. rewrite decide_True by lra. lra.
    + apply coverage_R_increasing. lra.
Qed.

(** X13: over the real numbers, for a dry weight [dw >= 0],
    [_calculate_scale] returns the square root of a coverage above
    [7.98]: the root is taken of a positive number, and the scale is above
    [2.8]. *)
Theorem X13_scale_defined (dw : R) :
  0 <= dw →
  ∃ coverage scale,
    _calculate_scale dw = Some scale ∧ scale = sqrt coverage ∧
    7.98 < coverage ∧ scale * scale = coverage ∧ 2.8 < scale.
Proof.
  intros Hdw. exists (coverage_R dw), (sqrt (coverage_R dw)).
  split; [apply calculate_scale_R|]. split; [done|].
  pose proof (coverage_R_lower dw Hdw) as Hc.
  split; [done|]. split; [apply sqrt_sqrt; lra|].
  rewrite <-(sqrt_square 2.8) by lra. apply sqrt_lt_1; lra.
Qed.

(** X14: over the real numbers, [_calculate_scale] increases strictly with
    the dry weight on [dw >= 0], also across the threshold [0.3] where it
    changes its polynomial. *)
Theorem X14_scale_increasing (dw1 dw2 : R) :
  0 <= dw1 → dw1 < dw2 →
  ∃ s1 s2,
    _calculate_scale dw1 = Some s1 ∧ _calculate_scale dw2 = Some s2 ∧ s1 < s2.
Proof.
  intros H1 H12. exists (sqrt (coverage_R dw1)), (sqrt (coverage_R dw2)).
  split; [apply calculate_scale_R|]. split; [apply calculate_scale_R|].
  pose proof (coverage_R_lower dw1 H1).
  pose proof (coverage_R_lower dw2 ltac:(lra)).
  apply sqrt_lt_1; [lra|lra|]. by apply coverage_R_increasing.
Qed.

(** ** The planting grid over the real numbers *)

Lemma R_int_bounds (x : R) : 0 <= x → IZR (R_int x) <= x < IZR (R_int x) + 1.
Proof.
  intros Hx. unfold R_int. rewrite decide_True by done.
  destruct (base_Int_part x). lra.
Qed.

Lemma R_int_unique (x : R) (z : Z) :
  0 <= x → IZR z <= x < IZR z + 1 → R_int x = z.
Proof.
  intros Hx Hz. unfold R_int. rewrite decide_True by done.
  symmetry. apply Int_part_spec. lra.
Qed.

Lemma target_points_R (plant_density : Z) :
  (0 ≤ plant_density)%Z →
  R_int (IZR plant_density * Q2R 1.2) = ((12 * plant_density) `div` 10)%Z.
Proof.
  intros Hpd. apply R_int_unique.
  { apply Rmult_le_pos; [apply IZR_le; lia|lra]. }
  pose proof (Z.div_mod (12 * plant_density) 10 ltac:(lia)) as Hdm.
  pose proof (Z.mod_pos_bound (12 * plant_density) 10 ltac:(lia)) as Hm.
  set (q := ((12 * plant_density) `div` 10)%Z) in *.
  set (r := ((12 * plant_density) `mod` 10)%Z) in *.
  assert (IZR (12 * plant_density) = IZR (10 * q + r)) as HR by by f_equal.
  rewrite plus_IZR, !mult_IZR in HR.
  assert (0 <= IZR r <= 9) as [? ?].
  { split; apply IZR_le; lia. }
  lra.
Qed.

Lemma sqrt_lt_one (y : R) : 0 <= y < 1 → 0 <= sqrt y < 1.
Proof.
  intros [H0 H1]. split; [apply sqrt_pos|].
  apply Rlt_le_trans with (sqrt 1); [apply sqrt_lt_1; lra|].
  rewrite sqrt_1. lra.
Qed.

Lemma sqrt_ge_one (y : R) : 1 <= y → 1 <= sqrt y.
Proof.
  intros H1. apply Rle_trans with (sqrt 1); [rewrite sqrt_1; lra|].
  apply sqrt_le_1; lra.
Qed.

(** X17: over the real numbers, for a field of positive length and width
    and a target of at least one point, [int(plant_density * 1.2)]:
    when the length exceeds the target times the width, the first number
    of rows is [0], and the function raises [ZeroDivisionError] at
    [n_cols / n_rows]. *)
Theorem X17_long_field_divides_by_zero (fuel : nat) (plant_density : Z)
    (L W : R) :
  0 < L → 0 < W → (0 ≤ plant_density)%Z →
  let target_points := ((12 * plant_density) `div` 10)%Z in
  (1 ≤ target_points)%Z →
  IZR target_points * W < L →
  _coordinate_calculation_vectorized (S fuel) plant_density L W
  = Some (inl ZeroDivisionError).
Proof.
  intros HL HW Hpd t Ht Hlong.
  unfold _coordinate_calculation_vectorized, grid_dimensions.
  cbn [fint fmul fdiv of_int lit fis_zero fsqrt ArithMore_R Arith_R].
  rewrite target_points_R by done. fold t.
  rewrite (bool_decide_false (W = 0)) by lra.
  assert (0 < L / W) as Hr by (apply Rdiv_lt_0_compat; lra).
  rewrite (bool_decide_false (L / W = 0)) by lra.
  assert (1 <= IZR t) as Ht' by (apply IZR_le; lia).
  assert (0 <= IZR t / (L / W) < 1) as Hq.
  { replace (IZR t / (L / W)) with (IZR t * W / L) by (field; lra).
    split.
    - apply Rmult_le_pos; [nra|]. left. by apply Rinv_0_lt_compat.
    - apply (Rmult_lt_reg_r L); [done|]. unfold Rdiv.
      rewrite Rmult_assoc, Rinv_l by lra. lra. }
  rewrite (R_int_unique (sqrt (IZR t / (L / W))) 0)
    by (pose proof (sqrt_lt_one _ Hq); lra).
  by rewrite grid_loop_no_rows by lia.
Qed.

Lemma R_int_sqrt_ge_one (y : R) : 1 <= y → (1 ≤ R_int (sqrt y))%Z.
Proof.
  intros Hy. pose proof (sqrt_ge_one y Hy) as Hs.
  destruct (R_int_bounds (sqrt y)) as [_ Hub]; [lra|].
  assert (0 < IZR (R_int (sqrt y))) as Hpos by lra.
  apply lt_IZR in Hpos. lia.
Qed.

Lemma R_int_sqrt_nonneg (y : R) : (0 ≤ R_int (sqrt y))%Z.
Proof.
  pose proof (sqrt_pos y) as Hs.
  destruct (R_int_bounds (sqrt y)) as [_ Hub]; [done|].
  assert (-1 < IZR (R_int (sqrt y))) as Hpos by lra.
  apply lt_IZR in Hpos. lia.
Qed.

Lemma grid_dimensions_R (fuel : nat) (plant_density : Z) (L W : R) :
  0 < L → 0 < W → (0 ≤ plant_density)%Z →
  let target_points := ((12 * plant_density) `div` 10)%Z in
  L <= IZR target_points * W ∨ target_points = 0%Z →
  (2 * target_points + 1 ≤ Z.of_nat fuel)%Z →
  ∃ n_cols n_rows,
    grid_dimensions fuel plant_density L W = Some (inr (n_cols, n_rows))
    ∧ (0 ≤ n_cols)%Z ∧ (0 ≤ n_rows)%Z
    ∧ (target_points ≤ n_cols * n_rows)%Z.
Proof.
  intros HL HW Hpd t Hwide Hfuel.
  assert (0 ≤ t)%Z as Ht0 by (apply Z.div_pos; lia).
  unfold grid_dimensions.
  cbn [fint fmul fdiv of_int lit fis_zero fsqrt ArithMore_R Arith_R].
  rewrite target_points_R by done. fold t.
  rewrite (bool_decide_false (W = 0)) by lra.
  assert (0 < L / W) as Hr by (apply Rdiv_lt_0_compat; lra).
  rewrite (bool_decide_false (L / W = 0)) by lra.
  set (c0 := R_int (sqrt (IZR t * (L / W)))).
  set (r0 := R_int (sqrt (IZR t / (L / W)))).
  assert (0 ≤ c0)%Z as Hc0 by apply R_int_sqrt_nonneg.
  assert (0 ≤ r0)%Z as Hr0 by apply R_int_sqrt_nonneg.
  destruct (decide (t ≤ c0 * r0)%Z) as [Hdone|Hnot].
  { exists c0, r0. rewrite grid_loop_done by done. done. }
  assert (1 ≤ t)%Z as Ht1 by nia.
  destruct Hwide as [Hwide|Hzero]; [|lia].
  assert (1 ≤ r0)%Z as Hr1.
  { apply R_int_sqrt_ge_one.
    replace (IZR t / (L / W)) with (IZR t * W / L) by (field; lra).
    apply (Rmult_le_reg_r L); [done|]. unfold Rdiv.
    rewrite Rmult_assoc, Rinv_l by lra. lra. }
  destruct fuel as [|fuel]; [lia|].
  destruct (decide (c0 = 0)%Z) as [Hz|Hnz].
  - destruct (grid_loop_spec fuel t (L / W) 1 r0) as
      (c & r & Hl & Hc & Hrr & Hp & _); [lia..|].
    exists c, r. split; [|lia]. simpl.
    rewrite bool_decide_true by lia. rewrite decide_False by lia.
    rewrite Hz. cbn [flt fdiv of_int ArithMore_R Arith_R].
    rewrite bool_decide_true; [exact Hl|].
    unfold Rdiv. rewrite Rmult_0_l. done.
  - destruct (grid_loop_spec (S fuel) t (L / W) c0 r0) as
      (c & r & Hl & Hc & Hrr & Hp & _); [lia..|].
    exists c, r. split; [done|lia].
Qed.

(** X18: over the real numbers, for a field of positive length and width
    whose length is at most the target times the width (or with the
    target [0]), the function returns within [2*target_points + 1]
    iterations two arrays of equal length that hold at least the target,
    [int(plant_density * 1.2)] points. *)
Theorem X18_grid_covers_target (fuel : nat) (plant_density : Z) (L W : R) :
  0 < L → 0 < W → (0 ≤ plant_density)%Z →
  let target_points := ((12 * plant_density) `div` 10)%Z in
  L <= IZR target_points * W ∨ target_points = 0%Z →
  (2 * target_points + 1 ≤ Z.of_nat fuel)%Z →
  ∃ x_positions z_positions,
    _coordinate_calculation_vectorized fuel plant_density L W
    = Some (inr (x_positions, z_positions))
    ∧ length x_positions = length z_positions
    ∧ (target_points ≤ Z.of_nat (length x_positions))%Z.
Proof.
  intros HL HW Hpd t Hwide Hfuel.
  destruct (grid_dimensions_R fuel plant_density L W HL HW Hpd Hwide Hfuel)
    as (c & r & Hd & Hc & Hr & Hp).
  destruct (coordinate_layout fuel plant_density L W c r Hd)
    as (xs & zs & Hcall & Hlx & Hlz & _).
  exists xs, zs. split; [done|]. split; [congruence|].
  rewrite Hlx. fold t in Hp. nia.
Qed.
End VisualReal.

Section RenderProperties.
Context {F : Type} `{Arith F} `{ArithMore F} `{Numpy F} `{NumpyRandom F}.
Local Open Scope fl_scope.

(** ** The data of a frame *)

Lemma calculate_scale_is_Some (dw : F) : is_Some (_calculate_scale dw).
Proof.
  unfold _calculate_scale, _3_degree_polynomial, PARAMS_SMALL, PARAMS_LARGE.
  destruct (dw <? lit 0.3); simpl; by eexists.
Qed.

(** X19: when the numbers of columns and rows are found,
    [render_calculation] returns the step and the day it was given and one
    lettuce per grid point: [n_rows * n_cols] of them, the lettuce at
    index [i * n_cols + j] has that index as its id, sits at the [j]-th
    sample along the length and the [i]-th along the width, at height
    [0]. *)
Theorem X19_render_calculation_layout (self_L self_W : F) fuel (dw : F)
    (plant_density timestep day : Z) (g : generator) n_cols n_rows :
  grid_dimensions fuel plant_density self_L self_W
  = Some (inr (n_cols, n_rows)) →
  ∃ data g',
    render_calculation self_L self_W fuel dw plant_density timestep day g
    = Some (inr (data, g'))
    ∧ data_step data = timestep ∧ data_day data = day
    ∧ length (lettuces data) = (Z.to_nat n_rows * Z.to_nat n_cols)%nat
    ∧ ∀ i j, (i < Z.to_nat n_rows)%nat → (j < Z.to_nat n_cols)%nat →
        ∃ l, lettuces data !! (i * Z.to_nat n_cols + j)%nat = Some l
          ∧ lettuce_id l = (i * Z.to_nat n_cols + j)%nat
          ∧ linspace (- self_L / $2) (self_L / $2) n_cols !! j
            = Some (position_x l)
          ∧ position_y l = 0%Z
          ∧ linspace (- self_W / $2) (self_W / $2) n_rows !! i
            = Some (position_z l).
Proof.
  intros Hd.
  destruct (coordinate_layout fuel plant_density self_L self_W n_cols n_rows
              Hd) as (xs & zs & Hcall & Hlx & Hlz & Hlay).
  destruct (calculate_scale_is_Some dw) as [s Hs].
  unfold render_calculation. rewrite Hs. simpl. rewrite Hcall.
  destruct (uniform (- lit 40) (lit 40) (length xs) g) as [rot g1] eqn:Hrot.
  destruct (uniform (lit 0.85) (lit 1.15) (length xs) g1) as [rs g2] eqn:Hrs.
  pose proof (uniform_length (- lit 40) (lit 40) (length xs) g) as Hlrot.
  pose proof (uniform_length (lit 0.85) (lit 1.15) (length xs) g1) as Hlrs.
  rewrite Hrot in Hlrot. rewrite Hrs in Hlrs. simpl in Hlrot, Hlrs.
  eexists _, _. split; [done|]. simpl. split; [done|]. split; [done|].
  split.
  { rewrite length_imap, !length_zip. lia. }
  intros i j Hi Hj. destruct (Hlay i j Hi Hj) as [Hx Hz].
  set (k := (i * Z.to_nat n_cols + j)%nat) in *.
  assert (k < length xs)%nat as Hk by (rewrite Hlx; unfold k; nia).
  destruct (lookup_lt_is_Some_2 xs k) as [x Hxk]; [lia|].
  destruct (lookup_lt_is_Some_2 zs k) as [z Hzk]; [lia|].
  destruct (lookup_lt_is_Some_2 rot k) as [ro Hrok]; [lia|].
  destruct (lookup_lt_is_Some_2 rs k) as [r Hrk]; [lia|].
  eexists. split.
  { rewrite list_lookup_imap.
    assert (zip (zip (zip xs zs) rot) rs !! k = Some (x, z, ro, r)) as ->.
    { apply lookup_zip_with_Some. eexists _, _. split; [done|].
      split; [|done]. apply lookup_zip_with_Some. eexists _, _.
      split; [done|]. split; [|done]. apply lookup_zip_with_Some.
      by eexists _, _. }
    reflexivity. }
  simpl. split; [done|]. split; [congruence|]. split; [done|congruence].
Qed.

End RenderProperties.

(** ** The further theorems at worked inputs *)

Section MoreWitnesses.
Local Open Scope R_scope.

Lemma example_known_keys (new_params : gmap string R) :
  dom new_params ∖ dom example_parameters = ∅ →
  ∀ k, k ∈ dom new_params → k ∈ dom (parameters example_model).
Proof. intros Hd. by apply known_keys_dom. Qed.

Lemma example_update_known :
  ∀ k, k ∈ dom example_update → k ∈ dom (parameters example_model).
Proof. apply example_known_keys. vm_compute. reflexivity. Qed.

Lemma example_update_2_known :
  ∀ k, k ∈ dom example_update_2 → k ∈ dom (parameters example_model).
Proof. apply example_known_keys. vm_compute. reflexivity. Qed.

Lemma accepted_042 : accepted 0.42 = true.
Proof. apply accepted_R. lra. Qed.

Lemma example_tagged_instance :
  instance example_tagged_args [] example_tagged_model.
Proof.
  exists example_tagged_model. split; [|reflexivity].
  destruct (construct_inr example_tagged_args) as (vs & Hvs & ->).
  - cbn [arg_plant_dw example_tagged_args fle of_int Arith_R].
    apply bool_decide_false. lra.
  - cbn [arg_plant_density example_tagged_args]. lia.
  - vm_compute. reflexivity.
  - assert (lookup_all example_tagged_parameters param_order
            = inr (take 20 (flatten example_coefficients))) as Hl
      by (vm_compute; reflexivity).
    cbn [arg_parameters example_tagged_args] in Hvs.
    rewrite Hl in Hvs. injection Hvs as <-. reflexivity.
Qed.

Lemma example_tag_update_keys :
  ∀ k, k ∈ dom example_tag_update →
       k ∈ dom (parameters example_tagged_model) ∧ k ∉ required_params.
Proof.
  intros k Hk. unfold example_tag_update in Hk.
  rewrite dom_singleton_L in Hk. apply elem_of_singleton in Hk as ->.
  split.
  - apply elem_of_dom. cbn [parameters example_tagged_model set_parameters].
    unfold example_tagged_parameters.
    rewrite lookup_insert_eq. by eexists.
  - by vm_compute.
Qed.

Lemma example_rest_update_eq :
  update_parameters example_rest_update example_model
  = (inr (), example_rest_model).
Proof. vm_compute. reflexivity. Qed.

Lemma example_rest_instance :
  instance example_args [Call_update_parameters example_rest_update]
    example_rest_model.
Proof.
  exists example_model. split; [apply example_construct|].
  unfold run_calls. cbn [foldl run_call]. by rewrite example_rest_update_eq.
Qed.

Lemma example_rest_rate :
  _model_core (state example_rest_model) example_dark
    (params_array example_rest_model)
    (light_interception_method example_rest_model)
  = Some (0, 0).
Proof.
  cbn [state params_array light_interception_method example_rest_model
       set_params_array set_parameters example_model].
  rewrite model_core_flatten, dark_rate_eq; [|reflexivity|simpl; lra..].
  cbv zeta. f_equal.
  cbn [c_gr_max c_r c_b c_t c_resp_sht c_resp_rt c_Q10_gr c_Q10_resp
       example_rest_coefficients example_dark temp rad pop_density].
  set (rho := _ / (_ + _)). set (q1 := Rpower 1.6 _).
  set (q2 := Rpower 2 _). apply pair_equal_spec. split; field; lra.
Qed.

Lemma R_int_IZR (z : Z) : (0 ≤ z)%Z → R_int (IZR z) = z.
Proof.
  intros Hz. apply R_int_unique; [apply IZR_le in Hz; exact Hz|lra].
Qed.

Lemma example_rows_sorted : StronglySorted Z.lt (hour_orders example_rows).
Proof.
  unfold hour_orders, example_rows. simpl.
  rewrite (R_int_IZR 0), (R_int_IZR 24) by lia.
  repeat constructor.
Qed.

Lemma example_grid_dimensions :
  ∃ n_cols n_rows,
    grid_dimensions 241 100 1 1 = Some (inr (n_cols, n_rows))
    ∧ (120 ≤ n_cols * n_rows)%Z.
Proof.
  destruct (grid_dimensions_R 241 100 1 1) as (c & r & Hd & _ & _ & Hp);
    [lra|lra|lia| |apply Z.leb_le; reflexivity|].
  - left. change ((12 * 100) `div` 10)%Z with 120%Z. lra.
  - exists c, r. split; [done|]. exact Hp.
Qed.


(** The hypotheses of X2 hold on the worked instance. *)
Lemma X2_witness :
  instance example_args [] example_model
  ∧ (∀ k, k ∈ dom example_update → k ∈ dom (parameters example_model))
  ∧ (∀ k, k ∈ dom example_update_2 → k ∈ dom (parameters example_model))
  ∧ ∃ m1 m2,
      update_parameters example_update example_model = (inr (), m1) ∧
      update_parameters example_update_2 m1 = (inr (), m2) ∧
      update_parameters (example_update_2 ∪ example_update) example_model
      = (inr (), m2).
Proof.
  split; [exact example_instance|]. split; [exact example_update_known|].
  split; [exact example_update_2_known|].
  exact (X2_update_parameters_compose example_args [] example_model
           example_update example_update_2 example_instance
           example_update_known example_update_2_known).
Defined.

(** The hypotheses of X3 hold on the worked instance. *)
Lemma X3_witness :
  instance example_args [] example_model
  ∧ ({[ "c_r" := 1 ]} : gmap string R) ⊆ parameters example_model
  ∧ update_parameters {[ "c_r" := 1 ]} example_model = (inr (), example_model).
Proof.
  assert (({[ "c_r" := 1 ]} : gmap string R) ⊆ parameters example_model)
    as Hsub.
  { apply map_singleton_subseteq_l. vm_compute. reflexivity. }
  split; [exact example_instance|]. split; [exact Hsub|].
  exact (X3_update_parameters_noop example_args [] example_model _
           example_instance Hsub).
Defined.

(** The hypotheses of X4 hold on the worked instance. *)
Lemma X4_witness :
  instance example_args [] example_model
  ∧ accepted 0.42 = true
  ∧ (∀ k, k ∈ dom example_update → k ∈ dom (parameters example_model))
  ∧ ∃ m1 m2 m',
      set_external_light_interception 0.42 example_model = (inr (), m1) ∧
      update_parameters example_update m1 = (inr (), m') ∧
      update_parameters example_update example_model = (inr (), m2) ∧
      set_external_light_interception 0.42 m2 = (inr (), m').
Proof.
  split; [exact example_instance|]. split; [exact accepted_042|].
  split; [exact example_update_known|].
  exact (X4_setter_update_commute example_args [] example_model 0.42
           example_update example_instance accepted_042 example_update_known).
Defined.

(** The hypotheses of X5 hold on the worked instance. *)
Lemma X5_witness :
  instance example_args [] example_model
  ∧ accepted 0.42 = true
  ∧ set_external_light_interception 0.42
      (set_external_light_interception 1.5 example_model).2
    = set_external_light_interception 0.42 example_model.
Proof.
  split; [exact example_instance|]. split; [exact accepted_042|].
  exact (X5_setter_last_value_wins example_args [] example_model 1.5 0.42
           example_instance accepted_042).
Defined.


(** The hypotheses of X7 hold on the worked instance. *)
Lemma X7_witness :
  construct example_args = inr example_model
  ∧ forallb is_step_or_reset
      [Call_step example_dark; Call_reset; Call_step example_dark] = true
  ∧ run_calls ([Call_step example_dark; Call_reset; Call_step example_dark]
               ++ [Call_reset]) example_model
    = example_model.
Proof.
  split; [exact example_construct|]. split; [reflexivity|].
  exact (X7_reset_undoes_steps example_args example_model
           [Call_step example_dark; Call_reset; Call_step example_dark]
           example_construct eq_refl).
Defined.


(** The hypotheses of X9 hold on the instance without growth and
    respiration, in the dark. *)
Lemma X9_witness :
  instance example_args [Call_update_parameters example_rest_update]
    example_rest_model
  ∧ _model_core (state example_rest_model) example_dark
      (params_array example_rest_model)
      (light_interception_method example_rest_model)
    = Some (0, 0)
  ∧ step example_dark example_rest_model = (inr (), example_rest_model).
Proof.
  split; [exact example_rest_instance|]. split; [exact example_rest_rate|].
  exact (X9_equilibrium_is_kept example_args _ example_rest_model
           example_dark example_rest_instance example_rest_rate).
Defined.




(** The hypothesis of X13 holds at the initial dry weight. *)
Lemma X13_witness :
  0 <= 0.04
  ∧ ∃ coverage scale,
      _calculate_scale 0.04 = Some scale ∧ scale = sqrt coverage ∧
      7.98 < coverage ∧ scale * scale = coverage ∧ 2.8 < scale.
Proof.
  assert (0 <= 0.04) as Hdw by lra.
  split; [exact Hdw|]. exact (X13_scale_defined 0.04 Hdw).
Defined.

(** The hypotheses of X14 hold on the two sides of the threshold. *)
Lemma X14_witness :
  0 <= 0.29 ∧ 0.29 < 0.3
  ∧ ∃ s1 s2,
      _calculate_scale 0.29 = Some s1 ∧ _calculate_scale 0.3 = Some s2
      ∧ s1 < s2.
Proof.
  assert (0 <= 0.29) as H1 by lra. assert (0.29 < 0.3) as H2 by lra.
  split; [exact H1|]. split; [exact H2|].
  exact (X14_scale_increasing 0.29 0.3 H1 H2).
Defined.

(** The hypothesis of X16 holds for 100 plants on a square panel. *)
Lemma X16_witness :
  ∃ n_cols n_rows,
    grid_dimensions 241 100 1 1 = Some (inr (n_cols, n_rows))
    ∧ ∃ x_positions z_positions,
        _coordinate_calculation_vectorized 241 100 1 1
        = Some (inr (x_positions, z_positions))
        ∧ length x_positions = (Z.to_nat n_rows * Z.to_nat n_cols)%nat
        ∧ length z_positions = (Z.to_nat n_rows * Z.to_nat n_cols)%nat.
Proof.
  destruct example_grid_dimensions as (c & r & Hd & _).
  exists c, r. split; [exact Hd|].
  destruct (X16_grid_layout 241 100 1 1 c r Hd)
    as (xs & zs & Hcall & Hlx & Hlz & _).
  exists xs, zs. split; [exact Hcall|]. split; [exact Hlx|exact Hlz].
Defined.

(** The hypotheses of X17 hold for 4 plants on a panel of 10 by 0.1. *)
Lemma X17_witness :
  0 < 10 ∧ 0 < 0.1 ∧ (0 ≤ 4)%Z ∧ (1 ≤ (12 * 4) `div` 10)%Z
  ∧ IZR ((12 * 4) `div` 10) * 0.1 < 10
  ∧ _coordinate_calculation_vectorized 1 4 10 0.1
    = Some (inl ZeroDivisionError).
Proof.
  assert (0 < 10) as HL by lra. assert (0 < 0.1) as HW by lra.
  assert (0 ≤ 4)%Z as Hpd by lia.
  assert (1 ≤ (12 * 4) `div` 10)%Z as Ht by (by vm_compute).
  assert (IZR ((12 * 4) `div` 10) * 0.1 < 10) as Hlong.
  { change ((12 * 4) `div` 10)%Z with 4%Z. lra. }
  split; [exact HL|]. split; [exact HW|]. split; [exact Hpd|].
  split; [exact Ht|]. split; [exact Hlong|].
  exact (X17_long_field_divides_by_zero 0 4 10 0.1 HL HW Hpd Ht Hlong).
Defined.

(** The hypotheses of X18 hold for 100 plants on a square panel. *)
Lemma X18_witness :
  0 < 1 ∧ (0 ≤ 100)%Z
  ∧ (1 <= IZR ((12 * 100) `div` 10) * 1 ∨ ((12 * 100) `div` 10)%Z = 0%Z)
  ∧ (2 * ((12 * 100) `div` 10) + 1 ≤ Z.of_nat 241)%Z
  ∧ ∃ x_positions z_positions,
      _coordinate_calculation_vectorized 241 100 1 1
      = Some (inr (x_positions, z_positions))
      ∧ length x_positions = length z_positions
      ∧ ((12 * 100) `div` 10 ≤ Z.of_nat (length x_positions))%Z.
Proof.
  assert (0 < 1) as HL by lra. assert (0 ≤ 100)%Z as Hpd by lia.
  assert (1 <= IZR ((12 * 100) `div` 10) * 1
          ∨ ((12 * 100) `div` 10)%Z = 0%Z) as Hwide.
  { left. change ((12 * 100) `div` 10)%Z with 120%Z. lra. }
  assert (2 * ((12 * 100) `div` 10) + 1 ≤ Z.of_nat 241)%Z as Hfuel
    by (by vm_compute).
  split; [exact HL|]. split; [exact Hpd|]. split; [exact Hwide|].
  split; [exact Hfuel|].
  exact (X18_grid_covers_target 241 100 1 1 HL HL Hpd Hwide Hfuel).
Defined.

(** The hypothesis of X19 holds for 100 plants on a square panel. *)
Lemma X19_witness :
  ∃ n_cols n_rows,
    grid_dimensions 241 100 1 1 = Some (inr (n_cols, n_rows))
    ∧ ∃ data g',
        render_calculation 1 1 241 0.04 100 0 0
          (tt : @generator R NumpyRandom_low)
        = Some (inr (data, g'))
        ∧ data_step data = 0%Z ∧ data_day data = 0%Z
        ∧ length (lettuces data) = (Z.to_nat n_rows * Z.to_nat n_cols)%nat.
Proof.
  destruct example_grid_dimensions as (c & r & Hd & _).
  exists c, r. split; [exact Hd|].
  destruct (X19_render_calculation_layout 1 1 241 0.04 100 0 0
              (tt : @generator R NumpyRandom_low) c r Hd)
    as (data & g' & Hcall & Hs & Hday & Hlen & _).
  exists data, g'. split; [exact Hcall|]. split; [exact Hs|].
  split; [exact Hday|exact Hlen].
Defined.

End MoreWitnesses.

Section FractionProperties.
Local Open Scope R_scope.

(** ** The light interception is a fraction *)

Lemma override_after_range (cs : list (call R)) (cur : R) :
  0 <= cur <= 1 → 0 <= override_after cs cur <= 1.
Proof.
  revert cur. induction cs as [|c cs IH]; intros cur Hcur; [done|].
  destruct c as [u|value|new_params|]; simpl; try by apply IH.
  apply IH. destruct (accepted value) eqn:Hacc; [|done].
  by apply accepted_R.
Qed.

(** X20: over the real numbers, on every instance the override, which is
    the attribute and the last slot of the coefficient vector, lies in
    [[0, 1]], whatever calls were made. *)
Theorem X20_override_in_unit_interval (a : ctor_args R) cs (m : model R) :
  instance a cs m →
  params_array m !! 20%nat = Some (_external_light_interception m)
  ∧ 0 <= _external_light_interception m <= 1.
Proof.
  intros Hi. apply instance_instance_inv in Hi as [[Hd _ _ _ _] Hext].
  split.
  - destruct Hd as (vs & Hvs & ->). apply lookup_all_length in Hvs.
    rewrite lookup_app_r by (rewrite Hvs; done). by rewrite Hvs.
  - rewrite Hext. apply override_after_range. simpl. unfold Q2R. simpl. lra.
Qed.

(** X21: over the real numbers, the Beer-Lambert interception of a canopy
    with [0 <= k * lai] lies in [[0, 1)], and for [0 < k] it increases
    strictly with the leaf area index. *)
Theorem X21_beer_lambert_fraction (lai k : R) :
  0 <= k * lai →
  0 <= _beer_lambert lai k < 1
  ∧ ∀ lai', 0 < k → lai < lai' → _beer_lambert lai k < _beer_lambert lai' k.
Proof.
  intros Hkl. unfold _beer_lambert. cbn [fadd fneg fmul fexp of_int Arith_R].
  split.
  - pose proof (exp_pos (- k * lai)) as Hpos.
    assert (exp (- k * lai) <= 1) as Hle.
    { rewrite <-exp_0. destruct (Req_dec_T (- k * lai) 0) as [->|Hne];
        [lra|]. left. apply exp_increasing. lra. }
    lra.
  - intros lai' Hk Hlt.
    assert (exp (- k * lai') < exp (- k * lai)) as Hexp.
    { apply exp_increasing. nra. }
    lra.
Qed.

(** The hypothesis of X20 holds on the worked instance. *)
Lemma X20_witness :
  instance example_args [] example_model
  ∧ params_array example_model !! 20%nat
    = Some (_external_light_interception example_model)
  ∧ 0 <= _external_light_interception example_model <= 1.
Proof.
  split; [exact example_instance|].
  exact (X20_override_in_unit_interval example_args [] example_model
           example_instance).
Defined.

(** The hypothesis of X21 holds for the worked canopy. *)
Lemma X21_witness :
  0 <= 0.9 * 0.2
  ∧ 0 <= _beer_lambert 0.2 0.9 < 1
  ∧ ∀ lai', 0 < 0.9 → 0.2 < lai' →
            _beer_lambert 0.2 0.9 < _beer_lambert lai' 0.9.
Proof.
  assert (0 <= 0.9 * 0.2) as H by lra.
  split; [exact H|]. exact (X21_beer_lambert_fraction 0.2 0.9 H).
Defined.

End FractionProperties.

Section GridWitness.
Local Open Scope R_scope.

(** The cases of X15 on a grid of two columns: with two rows it holds a
    target of four, with no row the division fails. *)
Lemma X15_witness :
  grid_loop 0 4 (1 : R) 2 2 = Some (inr (2, 2)%Z)
  ∧ grid_loop 1 4 (1 : R) 2 0 = Some (inl ZeroDivisionError).
Proof.
  destruct (X15_grid_loop 0 4 (1 : R) 2 2) as (H1 & H2 & _).
  split; [apply H1; lia | apply H2; lia].
Defined.

End GridWitness.
